(** * Image uploader: batch upload pipeline of the Obsidian plugin

    A shallow embedding of [main.ts], the revision with
    [uploadImagesConcurrently], and of the second revision of that file
    the repository carries, the one whose [uploadAllImages] uploads one
    image after another (module [Legacy]); then the properties of the
    upload pipeline.

    Conventions of the embedding.
    - Strings are [string]; ASCII is treated exactly.  Characters outside
      ASCII are carried as their UTF-8 bytes: they are compared and
      concatenated but never case-mapped, which is exact for uncased
      scripts (the source's own CJK messages); cased or blank characters
      outside ASCII are not represented.
    - A thrown JavaScript exception is the [Throw] case of [Outcome].
    - What the platform supplies ([new URL], [requestUrl], [fetch],
      [ToString]) is a field of the record [Host]; network calls leave an
      [Event] in the trace a function returns.
    - Property lookup sees the own properties of values obtained from
      [JSON.parse]; members inherited from the built-in prototypes are not
      represented.
    - Console output is not part of the trace. *)

From stdpp Require Import gmap strings list.
From Stdlib Require Import ZArith Ascii String DecimalString Lia.

(* String literals parse as [string]; [++] stays list concatenation and
   [+:+] is string concatenation. *)
Open Scope string_scope.
Open Scope list_scope.

(* ================================================================== *)
(** ** Strings: the [String.prototype] methods the plugin calls        *)
(* ================================================================== *)

Definition isUpper (c : ascii) : bool :=
  let n := nat_of_ascii c in Nat.leb 65 n && Nat.leb n 90.

Definition lowerChar (c : ascii) : ascii :=
  if isUpper c then ascii_of_nat (nat_of_ascii c + 32) else c.

(** [s.toLowerCase()] *)
Fixpoint toLowerCase (s : string) : string :=
  match s with
  | EmptyString => EmptyString
  | String c r => String (lowerChar c) (toLowerCase r)
  end.

(** TAB, LF, VT, FF, CR and SPACE: the ASCII part of what [trim] removes. *)
Definition isWhiteSpace (c : ascii) : bool :=
  let n := nat_of_ascii c in (Nat.leb 9 n && Nat.leb n 13) || Nat.eqb n 32.

Fixpoint trimStart (s : string) : string :=
  match s with
  | EmptyString => EmptyString
  | String c r => if isWhiteSpace c then trimStart r else s
  end.

Fixpoint trimEnd (s : string) : string :=
  match s with
  | EmptyString => EmptyString
  | String c r =>
      match trimEnd r with
      | EmptyString => if isWhiteSpace c then EmptyString else String c EmptyString
      | r' => String c r'
      end
  end.

(** [s.trim()] *)
Definition trim (s : string) : string := trimEnd (trimStart s).

(** [s.startsWith(p)] *)
Fixpoint startsWith (s p : string) {struct p} : bool :=
  match p with
  | EmptyString => true
  | String a p' =>
      match s with
      | EmptyString => false
      | String b s' => if Ascii.eqb a b then startsWith s' p' else false
      end
  end.

(** The rest of [s] after the literal prefix [p], when [s] starts with it. *)
Fixpoint dropPrefix (p s : string) : option string :=
  match p with
  | EmptyString => Some s
  | String a p' =>
      match s with
      | EmptyString => None
      | String b s' => if Ascii.eqb a b then dropPrefix p' s' else None
      end
  end.

(** [s.replace(/^https?:\/\//, '')] *)
Definition stripProtocol (s : string) : string :=
  match dropPrefix "http://" s with
  | Some r => r
  | None =>
      match dropPrefix "https://" s with
      | Some r => r
      | None => s
      end
  end.

(** [s.split(sep)] for a one-character separator; never the empty list. *)
Fixpoint str_split (sep : ascii) (s : string) : list string :=
  match s with
  | EmptyString => [EmptyString]
  | String c r =>
      if Ascii.eqb c sep then EmptyString :: str_split sep r
      else
        match str_split sep r with
        | h :: t => String c h :: t
        | [] => [String c EmptyString]
        end
  end.

(** [parts.join(sep)] *)
Fixpoint str_join (sep : string) (parts : list string) : string :=
  match parts with
  | [] => EmptyString
  | [p] => p
  | p :: rest => p +:+ sep +:+ str_join sep rest
  end.

(** The text before and after the first occurrence of [pat] in [s]. *)
Fixpoint splitAtFirst (pat s : string) {struct s} : option (string * string) :=
  match dropPrefix pat s with
  | Some rest => Some (EmptyString, rest)
  | None =>
      match s with
      | EmptyString => None
      | String c r =>
          match splitAtFirst pat r with
          | Some (b, a) => Some (String c b, a)
          | None => None
          end
      end
  end.

(** ECMAScript [GetSubstitution] for a string pattern (no capture groups):
    in the replacement text, [$$] is a dollar sign, [$&] the matched text,
    [$`] the text before the match and [$'] the text after it; every
    other character, a lone [$] included, stands for itself. *)
Fixpoint getSubstitution (matched before after template : string) : string :=
  match template with
  | EmptyString => EmptyString
  | String "$" (String "$" r) => String "$" (getSubstitution matched before after r)
  | String "$" (String "&" r) => matched +:+ getSubstitution matched before after r
  | String "$" (String "`" r) => before +:+ getSubstitution matched before after r
  | String "$" (String "'" r) => after +:+ getSubstitution matched before after r
  | String c r => String c (getSubstitution matched before after r)
  end.

(** Whether the character [c] occurs in [s]. *)
Fixpoint occurs (c : ascii) (s : string) : bool :=
  match s with
  | EmptyString => false
  | String c' r => Ascii.eqb c' c || occurs c r
  end.

(** [s.replace(pat, repl)] with a string pattern: the first occurrence only. *)
Definition str_replace (s pat repl : string) : string :=
  match splitAtFirst pat s with
  | None => s
  | Some (b, a) => b +:+ getSubstitution pat b a repl +:+ a
  end.

(** Decimal rendering of a non-negative integer, as in a template literal. *)
Definition decimal (n : nat) : string := NilZero.string_of_uint (Nat.to_uint n).

(** The last element of a [split] result ([pop()], or the text after the
    last separator). *)
Definition lastPart (parts : list string) : string := List.last parts EmptyString.

(* ================================================================== *)
(** ** JavaScript values and exceptions                                *)
(* ================================================================== *)

Record JsError := mkError { name : string; message : string }.

Inductive Outcome (A : Type) : Type :=
| Ok (a : A)
| Throw (e : JsError).
Arguments Ok {A} a.
Arguments Throw {A} e.

(** Sequencing of calls that may throw: [x ← m; k] is stdpp's notation. *)
#[global] Instance Outcome_bind : MBind Outcome := fun A B k m =>
  match m with
  | Ok a => k a
  | Throw e => Throw e
  end.

(** A value produced by [JSON.parse], or [undefined] from a lookup.  An
    object keeps its members in text order. *)
#[warnings="-register-all"] Inductive Value : Type :=
| VUndefined
| VNull
| VBool (b : bool)
| VNum (n : Z)
| VStr (s : string)
| VArr (elems : list Value)
| VObj (fields : list (string * Value)).

(** Truthiness, as tested by [if (v)], [a && b] and [a || b]. *)
Definition truthy (v : Value) : bool :=
  match v with
  | VUndefined | VNull => false
  | VBool b => b
  | VNum n => negb (Z.eqb n 0)
  | VStr s => negb (String.eqb s EmptyString)
  | VArr _ | VObj _ => true
  end.

(** Own member of an object; of duplicate names [JSON.parse] keeps the last. *)
Fixpoint lookupField (k : string) (fields : list (string * Value)) : option Value :=
  match fields with
  | [] => None
  | (k', v) :: rest =>
      match lookupField k rest with
      | Some v' => Some v'
      | None => if String.eqb k k' then Some v else None
      end
  end.

(** The index below [n] whose decimal form is the property key [k]. *)
Fixpoint arrayIndex (k : string) (n : nat) : option nat :=
  match n with
  | O => None
  | S m => if String.eqb k (decimal m) then Some m else arrayIndex k m
  end.

Definition charAt (s : string) (i : nat) : Value :=
  match String.get i s with
  | Some c => VStr (String c EmptyString)
  | None => VUndefined
  end.

Definition TypeError_read (what key : string) : JsError :=
  mkError "TypeError"
    ("Cannot read properties of " +:+ what +:+ " (reading '" +:+ key +:+ "')").

(** [v[k]] (and [v.k]): reading a property. *)
Definition getProp (v : Value) (k : string) : Outcome Value :=
  match v with
  | VUndefined => Throw (TypeError_read "undefined" k)
  | VNull => Throw (TypeError_read "null" k)
  | VBool _ | VNum _ => Ok VUndefined
  | VStr s =>
      if String.eqb k "length" then Ok (VNum (Z.of_nat (String.length s)))
      else
        match arrayIndex k (String.length s) with
        | Some i => Ok (charAt s i)
        | None => Ok VUndefined
        end
  | VArr elems =>
      if String.eqb k "length" then Ok (VNum (Z.of_nat (List.length elems)))
      else
        match arrayIndex k (List.length elems) with
        | Some i => Ok (List.nth i elems VUndefined)
        | None => Ok VUndefined
        end
  | VObj fields =>
      match lookupField k fields with
      | Some v' => Ok v'
      | None => Ok VUndefined
      end
  end.

(* ================================================================== *)
(** ** Settings, progress, and the platform                            *)
(* ================================================================== *)

Record ImageUploaderSettings := {
  apiUrl : string;
  method : string;
  jsonPath : string;
  blacklistDomains : list string;
  autoUploadOnPaste : bool;
  customHeaders : list string;
  defaultWidthLarge : Z;
  defaultWidthMedium : Z;
  defaultWidthSmall : Z;
  enableAutoWidth : bool
}.

Definition DEFAULT_SETTINGS : ImageUploaderSettings := {|
  apiUrl := "http://your-api.com/upload";
  method := "POST";
  jsonPath := "data.url";
  blacklistDomains := [];
  autoUploadOnPaste := true;
  customHeaders := [];
  defaultWidthLarge := 800;
  defaultWidthMedium := 600;
  defaultWidthSmall := 400;
  enableAutoWidth := true
|}.

Record UploadProgress := {
  total : nat;
  current : nat;
  success : nat;
  failed : nat;
  skipped : nat;
  blacklisted : nat;
  errors : list (string * string)     (* {url, error} *)
}.

(** The arguments of [new File([bits], name, {type})]. *)
Record File := { fileName : string; fileType : string; fileBits : string }.

(** What [fetch(url, init)] is called with. *)
Record Request := {
  req_url : string;
  req_method : string;
  req_headers : gmap string string;
  req_image : File;                   (* the form field [image] *)
  req_mode : option string;
  req_credentials : option string
}.

(** A [fetch] response: its status and what [response.json()] gives. *)
Record Response := { status : nat; json : Outcome Value }.

(** [response.ok] *)
Definition ok (r : Response) : bool := Nat.leb 200 (status r) && Nat.leb (status r) 299.

(** What [requestUrl] resolves to. *)
Record RequestUrlResponse := {
  rsp_status : nat;
  rsp_headers : gmap string string;
  rsp_arrayBuffer : string
}.

Record Host := {
  URL_origin : string -> Outcome string;     (* [new URL(s).origin] *)
  URL_pathname : string -> Outcome string;   (* [new URL(s).pathname] *)
  requestUrl : string -> Outcome RequestUrlResponse;   (* GET, Accept: image/* *)
  fetch : Request -> Outcome Response;
  ToString : Value -> string                 (* of a value that is not a string *)
}.

Inductive Event : Type :=
| EvNotice (msg : string)                    (* [new Notice(msg)] *)
| EvProgress (p : UploadProgress)            (* [updateProgressNotice(progress)] *)
| EvRequestUrl (url : string)                (* a download was issued *)
| EvFetch (r : Request).                     (* an upload was issued *)

Definition isNetwork (e : Event) : bool :=
  match e with
  | EvRequestUrl _ | EvFetch _ => true
  | EvNotice _ | EvProgress _ => false
  end.

(** A trace without network requests. *)
Definition quiet (evs : list Event) : Prop := Forall (fun e => isNetwork e = false) evs.

Record Image := { url : string; originalMark : string }.

(** The object [{ originalMark, newMark }] an item's callback resolves to. *)
Record MarkPair := { resultMark : string; newMark : string }.

(* ================================================================== *)
(** ** [main.ts]: policy checks, upload, width hint                    *)
(* ================================================================== *)

(** [isUrlBlacklisted].  Its [try]/[catch] never fires on strings: no
    call in the body throws. *)
Definition isUrlBlacklisted (s : ImageUploaderSettings) (url : string) : bool :=
  let urlLower := toLowerCase url in
  existsb
    (fun domain =>
       let domainLower := trim (toLowerCase domain) in
       let urlWithoutProtocol := stripProtocol urlLower in
       let domainWithoutProtocol := stripProtocol domainLower in
       startsWith urlWithoutProtocol domainWithoutProtocol)
    (blacklistDomains s).

(** [getUrlFileName] *)
Definition getUrlFileName (h : Host) (url : string) : string :=
  match URL_pathname h url with
  | Ok pathname =>
      let fileName := lastPart (str_split "/" pathname) in
      if String.eqb fileName EmptyString then "image.jpg" else fileName
  | Throw _ => "image.jpg"
  end.

Definition mimeTypes : list (string * string) :=
  [ ("png", "image/png"); ("jpg", "image/jpeg"); ("jpeg", "image/jpeg");
    ("gif", "image/gif"); ("webp", "image/webp"); ("bmp", "image/bmp") ].

(** [getMimeType] *)
Definition getMimeType (url : string) : string :=
  let ext := toLowerCase (lastPart (str_split "." url)) in
  match List.find (fun kv => String.eqb (fst kv) ext) mimeTypes with
  | Some kv => snd kv
  | None => "image/jpeg"
  end.

(** One step of the [reduce] over [customHeaders] in [uploadImage]:
    [const [key, value] = header.split(':').map(s => s.trim())]. *)
Definition addHeader (acc : gmap string string) (header : string) : gmap string string :=
  match List.map trim (str_split ":" header) with
  | key :: value :: _ =>
      if negb (String.eqb key EmptyString) && negb (String.eqb value EmptyString)
      then <[key := value]> acc
      else acc
  | _ => acc
  end.

Definition buildHeaders (customHeaders : list string) : gmap string string :=
  fold_left addHeader customHeaders ∅.

Definition notConfigured : JsError := mkError "Error" "未配置API地址".

Definition httpError (st : nat) : JsError :=
  mkError "Error" ("HTTP错误! 状态码: " +:+ decimal st).

(** [uploadImage]: the value it resolves to or the exception it rejects
    with, and the events it caused.  The outer [catch] logs and rethrows. *)
Definition uploadImage (h : Host) (s : ImageUploaderSettings) (file : File)
  : Outcome Value * list Event :=
  if String.eqb (apiUrl s) "http://your-api.com/upload" then
    (Throw notConfigured, [EvNotice "请在设置中配置正确的图片上传API地址"])
  else
    let request := {|
      req_url := apiUrl s;
      req_method := method s;
      req_headers := buildHeaders (customHeaders s);
      req_image := file;
      req_mode := None;
      req_credentials := None
    |} in
    (response ← fetch h request;
     if negb (ok response) then Throw (httpError (status response))
     else
       result ← json response;
       data ← getProp result "data";
       getProp data "url",
     [EvFetch request]).

(** How an image element ended: [onload] with its pixel width, or [onerror]. *)
Inductive Decoded : Type :=
| Loaded (width : Z)
| DecodeError.

(** [getDefaultWidth]; [None] is [null]. *)
Definition getDefaultWidth (s : ImageUploaderSettings) (img : Decoded) : option Z :=
  match img with
  | Loaded width =>
      if Z.ltb 1600 width then Some (defaultWidthLarge s)
      else if Z.ltb 1200 width then Some (defaultWidthMedium s)
      else if Z.ltb 800 width then Some (defaultWidthSmall s)
      else Some width
  | DecodeError => None
  end.

(* ================================================================== *)
(** ** [main.ts]: [uploadImagesConcurrently]                           *)
(* ================================================================== *)

Definition bumpBlacklisted (p : UploadProgress) : UploadProgress :=
  {| total := total p; current := current p; success := success p;
     failed := failed p; skipped := skipped p;
     blacklisted := S (blacklisted p); errors := errors p |}.

Definition bumpSkipped (p : UploadProgress) : UploadProgress :=
  {| total := total p; current := current p; success := success p;
     failed := failed p; skipped := S (skipped p);
     blacklisted := blacklisted p; errors := errors p |}.

Definition bumpSuccess (p : UploadProgress) : UploadProgress :=
  {| total := total p; current := current p; success := S (success p);
     failed := failed p; skipped := skipped p;
     blacklisted := blacklisted p; errors := errors p |}.

Definition bumpCurrent (p : UploadProgress) : UploadProgress :=
  {| total := total p; current := S (current p); success := success p;
     failed := failed p; skipped := skipped p;
     blacklisted := blacklisted p; errors := errors p |}.

(** [progress.failed++; progress.errors.push({url, error})] *)
Definition recordFailure (u err : string) (p : UploadProgress) : UploadProgress :=
  {| total := total p; current := current p; success := success p;
     failed := S (failed p); skipped := skipped p;
     blacklisted := blacklisted p; errors := errors p ++ [(u, err)] |}.

(** The replacement text handed to [originalMark.replace(url, newUrl)]. *)
Definition replacementText (h : Host) (v : Value) : string :=
  match v with
  | VStr s => s
  | _ => ToString h v
  end.

(** The [File] built from a download:
    [new File([response.arrayBuffer], fileName, { type: mimeType })] with
    [mimeType = response.headers["content-type"] || this.getMimeType(url)]. *)
Definition downloadedFile (h : Host) (u : string) (response : RequestUrlResponse) : File :=
  let mimeType :=
    match rsp_headers response !! "content-type" with
    | Some t => if String.eqb t EmptyString then getMimeType u else t
    | None => getMimeType u
    end in
  {| fileName := getUrlFileName h u;
     fileType := mimeType;
     fileBits := rsp_arrayBuffer response |}.

(** [{ originalMark, newMark: originalMark }] *)
Definition unchanged (img : Image) : MarkPair :=
  {| resultMark := originalMark img; newMark := originalMark img |}.

(** The [try] block of one item's callback: what it returns or throws,
    the progress it leaves, and the events it caused. *)
Definition tryBlock (h : Host) (s : ImageUploaderSettings) (img : Image)
    (p : UploadProgress) : Outcome MarkPair * UploadProgress * list Event :=
  if isUrlBlacklisted s (url img) then
    let p1 := bumpCurrent (bumpBlacklisted p) in
    (Ok (unchanged img), p1, [EvProgress p1])
  else
    match URL_origin h (apiUrl s) with
    | Throw e => (Throw e, p, [])
    | Ok origin =>
        if startsWith (url img) origin then
          let p1 := bumpCurrent (bumpSkipped p) in
          (Ok (unchanged img), p1, [EvProgress p1])
        else
          match requestUrl h (url img) with
          | Throw e => (Throw e, p, [EvRequestUrl (url img)])
          | Ok response =>
              if negb (Nat.eqb (rsp_status response) 200) then
                (Throw (mkError "Error" ("下载失败: HTTP " +:+ decimal (rsp_status response))),
                 p, [EvRequestUrl (url img)])
              else
                let file := downloadedFile h (url img) response in
                let '(uploaded, evs) := uploadImage h s file in
                match uploaded with
                | Throw e => (Throw e, p, EvRequestUrl (url img) :: evs)
                | Ok newUrl =>
                    if truthy newUrl then
                      (Ok {| resultMark := originalMark img;
                             newMark := str_replace (originalMark img) (url img)
                                          (replacementText h newUrl) |},
                       bumpSuccess p, EvRequestUrl (url img) :: evs)
                    else
                      (Throw (mkError "Error" "上传返回的URL为空"), p,
                       EvRequestUrl (url img) :: evs)
                end
          end
    end.

(** One item's callback, [try]/[catch]/[finally] included.  All its
    writes to [progress] happen in one synchronous stretch, so an item
    acts on the progress as a single step. *)
Definition processImage (h : Host) (s : ImageUploaderSettings) (img : Image)
    (p : UploadProgress) : MarkPair * UploadProgress * list Event :=
  let '(r, p1, evs) := tryBlock h s img p in
  let '(result, p2) :=
    match r with
    | Ok done => (done, p1)
    | Throw e =>
        let msg := if String.eqb (message e) EmptyString then "未知错误" else message e in
        (unchanged img, recordFailure (url img) msg p1)
    end in
  let p3 := bumpCurrent p2 in
  (result, p3, evs ++ [EvProgress p3]).

(** The callbacks of one batch, completing in batch order. *)
Fixpoint processBatch (h : Host) (s : ImageUploaderSettings) (batch : list Image)
    (p : UploadProgress) : list MarkPair * UploadProgress * list Event :=
  match batch with
  | [] => ([], p, [])
  | img :: rest =>
      let '(r, p1, evs1) := processImage h s img p in
      let '(rs, p2, evs2) := processBatch h s rest p1 in
      (r :: rs, p2, evs1 ++ evs2)
  end.

(** [results.forEach(... content = content.replace(originalMark, newMark))] *)
Definition applyResults (content : string) (results : list MarkPair) : string :=
  fold_left (fun c r => str_replace c (resultMark r) (newMark r)) results content.

(** The [for] loop over batches; [pending] is [images.slice(i)].  The
    loop makes no progress when [maxConcurrent] is 0: [None] then. *)
Fixpoint batchLoop (fuel : nat) (h : Host) (s : ImageUploaderSettings)
    (maxConcurrent : nat) (pending : list Image) (content : string)
    (p : UploadProgress) : option (string * UploadProgress * list Event) :=
  match pending with
  | [] => Some (content, p, [])
  | _ :: _ =>
      match fuel with
      | O => None
      | S fuel' =>
          let '(results, p1, evs1) := processBatch h s (firstn maxConcurrent pending) p in
          match batchLoop fuel' h s maxConcurrent (skipn maxConcurrent pending)
                  (applyResults content results) p1 with
          | Some (content', p2, evs2) => Some (content', p2, evs1 ++ evs2)
          | None => None
          end
      end
  end.

Definition initialProgress (images : list Image) : UploadProgress :=
  {| total := List.length images; current := 0; success := 0; failed := 0;
     skipped := 0; blacklisted := 0; errors := [] |}.

(** [uploadImagesConcurrently(editor, images, maxConcurrent)], with
    [content] what [editor.getValue()] returns. *)
Definition uploadImagesConcurrently (h : Host) (s : ImageUploaderSettings)
    (content : string) (images : list Image) (maxConcurrent : nat)
  : option (string * UploadProgress * list Event) :=
  batchLoop (List.length images) h s maxConcurrent images content (initialProgress images).

(** The default of the parameter [maxConcurrent]. *)
Definition defaultMaxConcurrent : nat := 3.

(* ================================================================== *)
(** ** The second revision of [main.ts]                                *)
(* ================================================================== *)

(** The revision of [main.ts] without [uploadImagesConcurrently].  Its
    [isUrlBlacklisted] is the one above, word for word; what differs in
    [uploadImage] and [getDefaultWidth] is below. *)
Module Legacy.

(** One step of the [forEach] over [customHeaders]:
    [const [key, ...values] = header.split(':')]. *)
Definition addHeader (headers : gmap string string) (header : string) : gmap string string :=
  match str_split ":" header with
  | key :: values =>
      if negb (String.eqb key EmptyString) && Nat.ltb 0 (List.length values)
      then <[trim key := trim (str_join ":" values)]> headers
      else headers
  | [] => headers
  end.

Definition buildHeaders (customHeaders : list string) : gmap string string :=
  fold_left addHeader customHeaders {["Accept" := "application/json"]}.

(** [path.split('.').reduce((acc, part) => acc && acc[part], obj)] *)
Definition getValueByPath (obj : Value) (path : string) : Outcome Value :=
  fold_left
    (fun acc part => a ← acc; if truthy a then getProp a part else Ok a)
    (str_split "." path) (Ok obj).

(** [uploadImage]: no check of the endpoint, and the result is read
    through [jsonPath]. *)
Definition uploadImage (h : Host) (s : ImageUploaderSettings) (file : File)
  : Outcome Value * list Event :=
  let request := {|
    req_url := apiUrl s;
    req_method := method s;
    req_headers := buildHeaders (customHeaders s);
    req_image := file;
    req_mode := Some "cors";
    req_credentials := Some "include"
  |} in
  (response ← fetch h request;
   if negb (ok response)
   then Throw (mkError "Error" ("HTTP error! status: " +:+ decimal (status response)))
   else
     body ← json response;
     getValueByPath body (jsonPath s),
   [EvFetch request]).

(** [getDefaultWidth] with the display widths written into the code. *)
Definition getDefaultWidth (img : Decoded) : option Z :=
  match img with
  | Loaded width =>
      if Z.ltb 1600 width then Some 800%Z
      else if Z.ltb 1200 width then Some 600%Z
      else if Z.ltb 800 width then Some 400%Z
      else Some width
  | DecodeError => None
  end.

End Legacy.

(* ================================================================== *)
(** ** Worked inputs                                                   *)
(* ================================================================== *)

(** A platform in which every download succeeds with a PNG and every
    upload is answered with status 200 and the JSON text [body]; of the
    strings used below, [new URL] accepts the endpoint
    [http://api.test/upload] and the image [http://img.example/a.png]. *)
Definition testHost (body : Value) : Host := {|
  URL_origin := fun u =>
    if String.eqb u "http://api.test/upload" then Ok "http://api.test"
    else if String.eqb u "http://img.example/a.png" then Ok "http://img.example"
    else Throw (mkError "TypeError" "Invalid URL");
  URL_pathname := fun u =>
    if String.eqb u "http://api.test/upload" then Ok "/upload"
    else if String.eqb u "http://img.example/a.png" then Ok "/a.png"
    else Throw (mkError "TypeError" "Invalid URL");
  requestUrl := fun _ =>
    Ok {| rsp_status := 200;
          rsp_headers := {["content-type" := "image/png"]};
          rsp_arrayBuffer := "PNG" |};
  fetch := fun _ => Ok {| status := 200; json := Ok body |};
  ToString := fun _ => "[object Object]"
|}.

Definition withApi (api : string) (path : string) (blacklist headers : list string)
  : ImageUploaderSettings := {|
  apiUrl := api;
  method := "POST";
  jsonPath := path;
  blacklistDomains := blacklist;
  autoUploadOnPaste := true;
  customHeaders := headers;
  defaultWidthLarge := 800;
  defaultWidthMedium := 600;
  defaultWidthSmall := 400;
  enableAutoWidth := true
|}.

Definition testSettings (blacklist : list string) : ImageUploaderSettings :=
  withApi "http://api.test/upload" "data.url" blacklist [].

Definition imageA : Image :=
  {| url := "http://img.example/a.png"; originalMark := "![](http://img.example/a.png)" |}.

Definition pngFile : File :=
  {| fileName := "a.png"; fileType := "image/png"; fileBits := "PNG" |}.

Definition dataUrl (u : string) : Value := VObj [("data", VObj [("url", VStr u)])].

(** A server that answers [{"url": "http://api.test/a.png"}], and settings
    whose JSON path is [url] accordingly. *)
Definition flatBody : Value := VObj [("url", VStr "http://api.test/a.png")].

Definition flatSettings : ImageUploaderSettings :=
  withApi "http://api.test/upload" "url" [] [].

(** A reference whose target begins with a blank, as in
    [![]( example.com/a.png)]. *)
Definition spacedImage : Image :=
  {| url := " example.com/a.png"; originalMark := "![]( example.com/a.png)" |}.

(** A reference to an image the upload endpoint already hosts. *)
Definition hostedImage : Image :=
  {| url := "http://api.test/a.png"; originalMark := "![](http://api.test/a.png)" |}.

(** Settings whose endpoint is not a URL. *)
Definition brokenSettings : ImageUploaderSettings :=
  withApi "not a url" "data.url" [] [].

Definition document : string := "see ![](http://img.example/a.png)".

(** A URL an upload may return: [$] is a legal character of a URL. *)
Definition dollarUrl : string := "http://api.test/a$$b.png".

(* ================================================================== *)
(** ** [main.ts]: finding the image links                              *)
(* ================================================================== *)

(** LF and CR: the ASCII line terminators, which [.] does not match. *)
Definition isLineTerminator (c : ascii) : bool :=
  Nat.eqb (nat_of_ascii c) 10 || Nat.eqb (nat_of_ascii c) 13.

Fixpoint hasLineTerminator (s : string) : bool :=
  match s with
  | EmptyString => false
  | String c r => isLineTerminator c || hasLineTerminator r
  end.

(** [(.*?)\)] at the head of [s]: group 1 and the text after the match.
    A lazy star first tries what follows it and, failing that, takes one
    more character. *)
Fixpoint matchTarget (s : string) {struct s} : option (string * string) :=
  match dropPrefix ")" s with
  | Some rest => Some (EmptyString, rest)
  | None =>
      match s with
      | EmptyString => None
      | String c r =>
          if isLineTerminator c then None
          else
            match matchTarget r with
            | Some (u, rest) => Some (String c u, rest)
            | None => None
            end
      end
  end.

(** [.*?\]\((.*?)\)] at the head of [s]: the alt text, group 1 and the
    text after the match. *)
Fixpoint matchAlt (s : string) {struct s} : option (string * string * string) :=
  match
    match dropPrefix "](" s with
    | Some t => matchTarget t
    | None => None
    end
  with
  | Some (u, rest) => Some (EmptyString, u, rest)
  | None =>
      match s with
      | EmptyString => None
      | String c r =>
          if isLineTerminator c then None
          else
            match matchAlt r with
            | Some (alt, u, rest) => Some (String c alt, u, rest)
            | None => None
            end
      end
  end.

(** [/!\[.*?\]\((.*?)\)/] at the head of [s]. *)
Definition matchImageAt (s : string) : option (string * string * string) :=
  match dropPrefix "![" s with
  | Some t => matchAlt t
  | None => None
  end.

(** The matched text [match[0]] for an alt text and a group 1. *)
Definition imageMark (alt u : string) : string :=
  "![" +:+ alt +:+ "](" +:+ u +:+ ")".

(** The matches of the global regular expression in [s], each with its
    [index], as [matchAll] and a loop over [exec] list them; a match gives
    [{ url: match[1], originalMark: match[0] }].  [skip] counts the
    characters of the last match still to pass over: the search resumes
    where the match ended. *)
Fixpoint matchAllFrom (skip index : nat) (s : string) : list (nat * Image) :=
  match s with
  | EmptyString => []
  | String _ r =>
      match skip with
      | S k => matchAllFrom k (S index) r
      | O =>
          match matchImageAt s with
          | Some (alt, u, _) =>
              (index, {| url := u; originalMark := imageMark alt u |})
                :: matchAllFrom (String.length (imageMark alt u) - 1) (S index) r
          | None => matchAllFrom 0 (S index) r
          end
      end
  end.

Definition matchAllImages (s : string) : list (nat * Image) := matchAllFrom 0 0 s.

(** [matches.map(match => ({ url: match[1], originalMark: match[0] }))] *)
Definition extractImages (content : string) : list Image :=
  List.map snd (matchAllImages content).


(* ================================================================== *)
(** ** [main.ts]: [uploadAllImages]                                    *)
(* ================================================================== *)

(** The five counters of a progress record. *)
Definition counts (p : UploadProgress) : nat * nat * nat * nat * nat :=
  (success p, failed p, skipped p, blacklisted p, current p).

(** An upload request, as opposed to a download or a notice. *)
Definition isFetch (e : Event) : bool :=
  match e with
  | EvFetch _ => true
  | EvNotice _ | EvProgress _ | EvRequestUrl _ => false
  end.

Definition newline : string := String (ascii_of_nat 10) EmptyString.

(** The summary shown when a run ends. *)
Definition finalMessage (p : UploadProgress) : string :=
  ("处理完成:" +:+ newline)
  +:+ (if Nat.ltb 0 (success p)
       then "✅ " +:+ decimal (success p) +:+ " 个成功" +:+ newline
       else EmptyString)
  +:+ (if Nat.ltb 0 (failed p)
       then ("❌ " +:+ decimal (failed p) +:+ " 个失败" +:+ newline)
            +:+ String.concat EmptyString
                  (List.map
                     (fun e => "  • " +:+ String.substring 0 20 (fst e) +:+ "... : "
                               +:+ snd e +:+ newline)
                     (errors p))
       else EmptyString)
  +:+ (if Nat.ltb 0 (skipped p)
       then "⏭️ " +:+ decimal (skipped p) +:+ " 个已存在" +:+ newline
       else EmptyString)
  +:+ (if Nat.ltb 0 (blacklisted p)
       then "⛔ " +:+ decimal (blacklisted p) +:+ " 个在黑名单中"
       else EmptyString).

(** [uploadAllImages(editor)]: the text the editor holds afterwards and
    the events caused, for an editor holding [content].  [None] stands
    for a run that does not return.  Hiding the progress notice is not an
    event. *)
Definition uploadAllImages (h : Host) (s : ImageUploaderSettings) (content : string)
  : option (string * list Event) :=
  let images := extractImages content in
  match images with
  | [] => Some (content, [EvNotice "没有找到需要上传的图片"])
  | _ :: _ =>
      match uploadImagesConcurrently h s content images defaultMaxConcurrent with
      | Some (newContent, progress, evs) =>
          Some (if Nat.ltb 0 (success progress) then newContent else content,
                EvNotice ("开始处理 " +:+ decimal (List.length images) +:+ " 张图片...")
                  :: evs ++ [EvNotice (finalMessage progress)])
      | None => None
      end
  end.

(* ================================================================== *)
(** ** [main.ts]: [handlePaste] and [uploadSingleImage]                *)
(* ================================================================== *)

(** A number in a template literal, for an integer. *)
Definition decimalZ (z : Z) : string :=
  match z with
  | Z0 => "0"
  | Zpos n => decimal (Pos.to_nat n)
  | Zneg n => "-" +:+ decimal (Pos.to_nat n)
  end.

(** What a paste leaves: whether [preventDefault] was called, the text
    handed to [replaceSelection], and the events caused. *)
Record Pasted := {
  defaultPrevented : bool;
  inserted : option string;
  pasteEvents : list Event
}.

Definition notHandled : Pasted :=
  {| defaultPrevented := false; inserted := None; pasteEvents := [] |}.

(** [handlePaste(evt, editor)], with [files] what
    [evt.clipboardData?.files] holds and [decode] how the pasted file
    loads as an image. *)
Definition handlePaste (h : Host) (s : ImageUploaderSettings) (decode : File -> Decoded)
    (files : option (list File)) : Pasted :=
  match files with
  | None | Some [] => notHandled
  | Some (file :: _) =>
      if negb (startsWith (fileType file) "image") then notHandled
      else if negb (autoUploadOnPaste s) then notHandled
      else
        let '(uploaded, evs) := uploadImage h s file in
        match uploaded with
        | Ok u =>
            if truthy u then
              let plain := "![](" +:+ replacementText h u +:+ ")" in
              let markdownImage :=
                if enableAutoWidth s then
                  match getDefaultWidth s (decode file) with
                  | Some width =>
                      if Z.eqb width 0 then plain
                      else "![|" +:+ decimalZ width +:+ "](" +:+ replacementText h u +:+ ")"
                  | None => plain
                  end
                else plain in
              {| defaultPrevented := true; inserted := Some markdownImage; pasteEvents := evs |}
            else
              {| defaultPrevented := true; inserted := None; pasteEvents := evs |}
        | Throw e =>
            {| defaultPrevented := true; inserted := None;
               pasteEvents := evs ++ [EvNotice ("上传失败: " +:+ message e)] |}
        end
  end.

(** The [try] block of [uploadSingleImage], for the text [currentLine] of
    the line the image is on: the new text of that line if
    [replaceRange] is called, or the exception thrown; and the events. *)
Definition singleTry (h : Host) (s : ImageUploaderSettings) (image : Image)
    (currentLine : string) : Outcome (option string) * list Event :=
  if isUrlBlacklisted s (url image) then
    (Ok None, [EvNotice "此图片域名在黑名单中"])
  else
    match URL_origin h (apiUrl s) with
    | Throw e => (Throw e, [])
    | Ok origin =>
        if startsWith (url image) origin then
          (Ok None, [EvNotice "此图片已经上传过了"])
        else
          let started := [EvNotice "开始上传图片..."; EvRequestUrl (url image)] in
          match requestUrl h (url image) with
          | Throw e => (Throw e, started)
          | Ok response =>
              if negb (Nat.eqb (rsp_status response) 200) then
                (Throw (mkError "Error" ("下载失败: HTTP " +:+ decimal (rsp_status response))),
                 started)
              else
                let file := downloadedFile h (url image) response in
                let '(uploaded, evs) := uploadImage h s file in
                match uploaded with
                | Throw e => (Throw e, started ++ evs)
                | Ok newUrl =>
                    if truthy newUrl then
                      let newMark := str_replace (originalMark image) (url image)
                                       (replacementText h newUrl) in
                      let newLine := str_replace currentLine (originalMark image) newMark in
                      (Ok (Some newLine), started ++ evs ++ [EvNotice "✅ 上传成功"])
                    else (Ok None, started ++ evs)
                end
          end
    end.

(** [uploadSingleImage(editor, image, line)]: the new text of the line,
    if it is rewritten, and the events.  The cursor is read before and
    set back after the rewrite. *)
Definition uploadSingleImage (h : Host) (s : ImageUploaderSettings) (image : Image)
    (currentLine : string) : option string * list Event :=
  match singleTry h s image currentLine with
  | (Ok r, evs) => (r, evs)
  | (Throw e, evs) => (None, evs ++ [EvNotice ("❌ 上传失败: " +:+ message e)])
  end.

(* ================================================================== *)
(** ** [settings.ts]: the two text areas                               *)
(* ================================================================== *)

(** The blacklist text area's [onChange]:
    [value.split('\n').map(s => s.trim()).filter(s => s.length > 0)]. *)
Definition parseBlacklist (value : string) : list string :=
  List.filter (fun e => Nat.ltb 0 (String.length e))
    (List.map trim (str_split (ascii_of_nat 10) value)).

(** The headers text area's [onChange]:
    [value.split('\n').map(line => line.trim()).filter(line => line.includes(':'))]. *)
Definition parseHeaders (value : string) : list string :=
  List.filter (fun line => occurs ":" line)
    (List.map trim (str_split (ascii_of_nat 10) value)).

(** What a text area shows for a stored list: [list.join('\n')]. *)
Definition showLines (lines : list string) : string := str_join newline lines.

(* ================================================================== *)
(** ** Facts about the string methods                                  *)
(* ================================================================== *)

Section StringFacts.

Implicit Types s p pat repl : string.

Lemma startsWith_empty s : startsWith s EmptyString = true.
Proof. reflexivity. Qed.

Lemma append_cons c s1 s2 : String c s1 +:+ s2 = String c (s1 +:+ s2).
Proof. reflexivity. Qed.

Lemma append_empty_l s : EmptyString +:+ s = s.
Proof. reflexivity. Qed.

Lemma append_empty_r s : s +:+ EmptyString = s.
Proof. induction s as [|c r IH]; [reflexivity|]. by rewrite append_cons, IH. Qed.

Lemma append_assoc s1 s2 s3 : (s1 +:+ s2) +:+ s3 = s1 +:+ (s2 +:+ s3).
Proof.
  induction s1 as [|c r IH]; [reflexivity|]. by rewrite !append_cons, IH.
Qed.

Lemma dropPrefix_sound p : forall s rest, dropPrefix p s = Some rest -> s = p +:+ rest.
Proof.
  induction p as [|a p' IH]; intros s rest H; cbn in H.
  - by inversion H.
  - destruct s as [|b s']; [discriminate|].
    destruct (Ascii.eqb a b) eqn:E; [|discriminate].
    apply Ascii.eqb_eq in E. subst b. rewrite append_cons. f_equal. by apply IH.
Qed.

Lemma dropPrefix_startsWith p : forall s,
  startsWith s p = true <-> exists rest, dropPrefix p s = Some rest.
Proof.
  induction p as [|a p' IH]; intros s; cbn.
  - split; eauto.
  - destruct s as [|b s'].
    + split; [discriminate|]. by intros [? ?].
    + destruct (Ascii.eqb a b); [apply IH|].
      split; [discriminate|]. by intros [? ?].
Qed.

(** [startsWith] is being a prefix. *)
Lemma startsWith_spec s p : startsWith s p = true <-> exists rest, s = p +:+ rest.
Proof.
  rewrite dropPrefix_startsWith. split.
  - intros [rest H]. exists rest. by apply dropPrefix_sound.
  - intros [rest ->]. exists rest. induction p as [|a p' IH]; [reflexivity|].
    rewrite append_cons. cbn. by rewrite Ascii.eqb_refl.
Qed.

(** The split found by [splitAtFirst] rebuilds the string. *)
Lemma splitAtFirst_sound pat : forall s b a,
  splitAtFirst pat s = Some (b, a) -> s = b +:+ pat +:+ a.
Proof.
  induction s as [|c r IH]; intros b a H.
  - cbn in H. destruct (dropPrefix pat EmptyString) eqn:E; [|discriminate].
    inversion H; subst. by apply dropPrefix_sound in E.
  - cbn [splitAtFirst] in H.
    destruct (dropPrefix pat (String c r)) eqn:E.
    + inversion H; subst. by apply dropPrefix_sound in E.
    + destruct (splitAtFirst pat r) as [[b' a']|] eqn:E'; [|discriminate].
      inversion H; subst. rewrite append_cons. f_equal. by apply IH.
Qed.

Lemma getSubstitution_plain matched before after : forall template,
  occurs "$" template = false ->
  getSubstitution matched before after template = template.
Proof.
  induction template as [|c r IH]; intros H; [reflexivity|].
  cbn in H. apply orb_false_elim in H as [Hc Hr].
  cbn. rewrite (IH Hr).
  destruct c as [[] [] [] [] [] [] [] []]; try reflexivity. discriminate Hc.
Qed.

(** Without [$] in the replacement text, [replace] substitutes it for the
    first occurrence of the pattern and keeps the text around it. *)
Lemma str_replace_plain s pat repl b a :
  splitAtFirst pat s = Some (b, a) ->
  occurs "$" repl = false ->
  s = b +:+ pat +:+ a /\ str_replace s pat repl = b +:+ repl +:+ a.
Proof.
  intros Hs Hd. split; [by apply splitAtFirst_sound|].
  unfold str_replace. rewrite Hs. by rewrite getSubstitution_plain.
Qed.

(** A string without the separator is a single part; with the separator
    once, two parts. *)
Lemma str_split_single sep s : occurs sep s = false -> str_split sep s = [s].
Proof.
  induction s as [|c r IH]; intros H; [reflexivity|].
  cbn in H. apply orb_false_elim in H as [Hc Hr].
  cbn. by rewrite Hc, (IH Hr).
Qed.

Lemma str_split_pair sep k v :
  occurs sep k = false -> occurs sep v = false ->
  str_split sep (k +:+ String sep v) = [k; v].
Proof.
  intros Hk Hv. induction k as [|c r IH].
  - rewrite append_empty_l. cbn. by rewrite Ascii.eqb_refl, (str_split_single _ _ Hv).
  - cbn in Hk. apply orb_false_elim in Hk as [Hc Hr].
    rewrite append_cons. cbn. by rewrite Hc, (IH Hr).
Qed.

Lemma str_split_cons sep k rest :
  occurs sep k = false ->
  str_split sep (k +:+ String sep rest) = k :: str_split sep rest.
Proof.
  intros Hk. induction k as [|c r IH].
  - rewrite append_empty_l. cbn. by rewrite Ascii.eqb_refl.
  - cbn in Hk. apply orb_false_elim in Hk as [Hc Hr].
    rewrite append_cons. cbn. by rewrite Hc, (IH Hr).
Qed.

Lemma isWhiteSpace_lowerChar c : isWhiteSpace (lowerChar c) = isWhiteSpace c.
Proof. destruct c as [[] [] [] [] [] [] [] []]; reflexivity. Qed.

Lemma toLowerCase_empty s : toLowerCase s = EmptyString <-> s = EmptyString.
Proof. destruct s; cbn; split; congruence. Qed.

Lemma trimStart_toLowerCase s : trimStart (toLowerCase s) = toLowerCase (trimStart s).
Proof.
  induction s as [|c r IH]; [reflexivity|].
  cbn. rewrite isWhiteSpace_lowerChar. by destruct (isWhiteSpace c).
Qed.

Lemma trimEnd_toLowerCase s : trimEnd (toLowerCase s) = toLowerCase (trimEnd s).
Proof.
  induction s as [|c r IH]; [reflexivity|].
  cbn. rewrite IH, isWhiteSpace_lowerChar.
  destruct (trimEnd r) as [|c' r']; cbn; [by destruct (isWhiteSpace c)|reflexivity].
Qed.

(** Trimming and lower-casing can be done in either order. *)
Lemma trim_toLowerCase s : trim (toLowerCase s) = toLowerCase (trim s).
Proof. unfold trim. by rewrite trimStart_toLowerCase, trimEnd_toLowerCase. Qed.

End StringFacts.

(* ================================================================== *)
(** ** Width hint                                                      *)
(* ================================================================== *)

(** C8. For a decoded width [w]: above 1600 the hint is the configured
    large display width, else above 1200 the medium one, else above 800
    the small one, else [w] itself; the display widths default to
    800/600/400; a failed decode gives no hint ([null]), not an error. *)
Theorem C8_getDefaultWidth_tiers (s : ImageUploaderSettings) (w : Z) :
  ((1600 < w)%Z -> getDefaultWidth s (Loaded w) = Some (defaultWidthLarge s)) /\
  ((1200 < w <= 1600)%Z -> getDefaultWidth s (Loaded w) = Some (defaultWidthMedium s)) /\
  ((800 < w <= 1200)%Z -> getDefaultWidth s (Loaded w) = Some (defaultWidthSmall s)) /\
  ((w <= 800)%Z -> getDefaultWidth s (Loaded w) = Some w) /\
  getDefaultWidth s DecodeError = None /\
  (defaultWidthLarge DEFAULT_SETTINGS, defaultWidthMedium DEFAULT_SETTINGS,
   defaultWidthSmall DEFAULT_SETTINGS) = (800, 600, 400)%Z.
Proof.
  unfold getDefaultWidth. repeat split; try reflexivity; intros H;
    repeat match goal with
           | |- context [Z.ltb ?a ?b] => destruct (Z.ltb_spec a b); try lia
           end; reflexivity.
Qed.

Lemma C8_getDefaultWidth_tiers_witness :
  getDefaultWidth DEFAULT_SETTINGS (Loaded 2000) = Some 800%Z /\
  getDefaultWidth DEFAULT_SETTINGS (Loaded 1600) = Some 600%Z /\
  getDefaultWidth DEFAULT_SETTINGS (Loaded 1200) = Some 400%Z /\
  getDefaultWidth DEFAULT_SETTINGS (Loaded 800) = Some 800%Z.
Proof.
  split; [|split; [|split]].
  - apply (C8_getDefaultWidth_tiers DEFAULT_SETTINGS 2000). lia.
  - apply (C8_getDefaultWidth_tiers DEFAULT_SETTINGS 1600). lia.
  - apply (C8_getDefaultWidth_tiers DEFAULT_SETTINGS 1200). lia.
  - apply (C8_getDefaultWidth_tiers DEFAULT_SETTINGS 800). lia.
Defined.

(** The second revision gives the hints the default settings give. *)
Lemma Legacy_getDefaultWidth_defaults (img : Decoded) :
  Legacy.getDefaultWidth img = getDefaultWidth DEFAULT_SETTINGS img.
Proof. reflexivity. Qed.

(* ================================================================== *)
(** ** Upload: endpoint guard, headers, result extraction              *)
(* ================================================================== *)

(** C5. With [apiUrl] still the placeholder [http://your-api.com/upload],
    [uploadImage] fails at once with the not-configured error, having
    shown a notice and issued no network request; that error is none of
    the other errors [uploadImage] builds. *)
Theorem C5_placeholder_endpoint_rejected (h : Host) (s : ImageUploaderSettings) (file : File) :
  apiUrl s = "http://your-api.com/upload" ->
  uploadImage h s file
    = (Throw notConfigured, [EvNotice "请在设置中配置正确的图片上传API地址"]) /\
  Forall (fun e => isNetwork e = false) (snd (uploadImage h s file)) /\
  (forall st, notConfigured <> httpError st) /\
  (forall what key, notConfigured <> TypeError_read what key).
Proof.
  intros Hapi. unfold uploadImage. rewrite Hapi. cbn [String.eqb Ascii.eqb Bool.eqb].
  repeat split.
  - repeat constructor.
  - intros st H. apply (f_equal message) in H. cbv in H. discriminate H.
  - intros what key H. apply (f_equal name) in H. discriminate H.
Qed.

Lemma C5_placeholder_endpoint_rejected_witness :
  fst (uploadImage (testHost VNull) DEFAULT_SETTINGS pngFile) = Throw notConfigured.
Proof.
  exact (f_equal fst
    (proj1 (C5_placeholder_endpoint_rejected (testHost VNull) DEFAULT_SETTINGS pngFile eq_refl))).
Defined.

(** The second revision has no such guard: with the placeholder it
    goes to the network. *)
Lemma Legacy_uploadImage_unguarded (h : Host) (s : ImageUploaderSettings) (file : File) :
  exists r, snd (Legacy.uploadImage h s file) = [EvFetch r] /\ req_url r = apiUrl s.
Proof. eexists. split; reflexivity. Qed.

(** A header with one colon, its key and value not blank, is sent with
    both trimmed; with a blank key or value it is dropped. *)
Lemma addHeader_one_colon (acc : gmap string string) (k v : string) :
  occurs ":" k = false -> occurs ":" v = false ->
  addHeader acc (k +:+ String ":" v)
    = if negb (String.eqb (trim k) EmptyString) && negb (String.eqb (trim v) EmptyString)
      then <[trim k := trim v]> acc else acc.
Proof.
  intros Hk Hv. unfold addHeader. by rewrite (str_split_pair _ _ _ Hk Hv).
Qed.

(** A header without a colon is dropped. *)
Lemma addHeader_no_colon (acc : gmap string string) (header : string) :
  occurs ":" header = false -> addHeader acc header = acc.
Proof. intros H. unfold addHeader. by rewrite (str_split_single _ _ H). Qed.

(** C6. [uploadImage] cuts a header value at its second colon:
    [Referer: https://example.com] is sent as [Referer: https], where
    the second revision sends the whole remainder. *)
Theorem C6_header_value_cut_at_second_colon :
  buildHeaders ["Referer: https://example.com"] !! "Referer" = Some "https" /\
  Legacy.buildHeaders ["Referer: https://example.com"] !! "Referer"
    = Some "https://example.com".
Proof. split; vm_compute; reflexivity. Qed.

(** The second revision, for its part, sends a header whose value is
    blank, and one whose key is blank. *)
Lemma Legacy_addHeader_keeps_blank :
  Legacy.buildHeaders ["X-Token:"] !! "X-Token" = Some EmptyString /\
  Legacy.buildHeaders [" : v"] !! EmptyString = Some "v" /\
  buildHeaders ["X-Token:"; " : v"] = ∅.
Proof. repeat split; vm_compute; reflexivity. Qed.

(** [uploadImage] never looks at [jsonPath]. *)
Lemma uploadImage_jsonPath_irrelevant (h : Host) (s1 s2 : ImageUploaderSettings) (file : File) :
  apiUrl s1 = apiUrl s2 -> method s1 = method s2 -> customHeaders s1 = customHeaders s2 ->
  uploadImage h s1 file = uploadImage h s2 file.
Proof. intros H1 H2 H3. unfold uploadImage. by rewrite H1, H2, H3. Qed.

Lemma getProp_truthy (v : Value) (k : string) :
  truthy v = true -> exists v', getProp v k = Ok v'.
Proof.
  destruct v; cbn; try discriminate; intros _; eauto;
    repeat match goal with
           | |- context [if ?b then _ else _] => destruct b
           | |- context [match ?o with Some _ => _ | None => _ end] => destruct o
           end; eauto.
Qed.

(** The walk of the second revision never throws: a missing or falsy
    step stops it with that falsy value. *)
Lemma Legacy_getValueByPath_total (obj : Value) (path : string) :
  exists v, Legacy.getValueByPath obj path = Ok v.
Proof.
  unfold Legacy.getValueByPath.
  generalize (str_split "." path) as parts. intros parts.
  generalize obj. induction parts as [|part rest IH]; intros a; cbn; [eauto|].
  destruct (truthy a) eqn:Ht.
  - destruct (getProp_truthy a part Ht) as [v' ->]. apply IH.
  - apply IH.
Qed.

(** The walk of the second revision, step by step: a falsy value ends
    it; a path without a dot reads one property; a path [k.rest] reads
    [k] and walks on with [rest]. *)
Lemma Legacy_getValueByPath_falsy (v : Value) (path : string) :
  truthy v = false -> Legacy.getValueByPath v path = Ok v.
Proof.
  intros Hf. unfold Legacy.getValueByPath.
  induction (str_split "." path) as [|part rest IH]; [reflexivity|].
  cbn. by rewrite Hf.
Qed.

Lemma Legacy_getValueByPath_last (obj : Value) (k : string) :
  occurs "." k = false -> truthy obj = true ->
  Legacy.getValueByPath obj k = getProp obj k.
Proof.
  intros Hk Ht. unfold Legacy.getValueByPath.
  rewrite (str_split_single _ _ Hk). cbn. by rewrite Ht.
Qed.

Lemma Legacy_getValueByPath_step (obj : Value) (k rest : string) :
  occurs "." k = false -> truthy obj = true ->
  Legacy.getValueByPath obj (k +:+ String "." rest)
  = (v ← getProp obj k; Legacy.getValueByPath v rest).
Proof.
  intros Hk Ht. unfold Legacy.getValueByPath.
  rewrite (str_split_cons _ _ _ Hk). cbn [fold_left]. cbn [mbind Outcome_bind].
  rewrite Ht. destruct (getProp_truthy obj k Ht) as [v ->]. reflexivity.
Qed.

(** When the answer is [{"data": {"url": u}}] and [jsonPath] is the
    default [data.url], both revisions give [u]. *)
Lemma uploadImage_default_path (u : string) :
  getProp (dataUrl u) "data" ≫= (fun d => getProp d "url") = Ok (VStr u) /\
  Legacy.getValueByPath (dataUrl u) (jsonPath DEFAULT_SETTINGS) = Ok (VStr u).
Proof. split; reflexivity. Qed.

(** C1. [uploadImage] reads [result.data.url] whatever [jsonPath] says:
    for a server answering [{"url": ...}] and [jsonPath] set to [url] it
    throws a [TypeError], where the walk of the second revision finds
    the URL. *)
Theorem C1_uploadImage_ignores_jsonPath :
  jsonPath flatSettings = "url" /\
  fst (uploadImage (testHost flatBody) flatSettings pngFile)
    = Throw (TypeError_read "undefined" "url") /\
  Legacy.getValueByPath flatBody (jsonPath flatSettings)
    = Ok (VStr "http://api.test/a.png") /\
  fst (Legacy.uploadImage (testHost flatBody) flatSettings pngFile)
    = Ok (VStr "http://api.test/a.png").
Proof. repeat split; vm_compute; reflexivity. Qed.

(* ================================================================== *)
(** ** One item of a batch                                             *)
(* ================================================================== *)

(** Case analysis along the branches of [tryBlock], outermost first. *)
Ltac item_cases h s img :=
  destruct (isUrlBlacklisted s (url img)) eqn:?;
  [| destruct (URL_origin h (apiUrl s)) as [?origin|?e] eqn:?;
     [ match goal with
       | |- context [startsWith (url img) ?o] =>
           destruct (startsWith (url img) o) eqn:?;
           [| destruct (requestUrl h (url img)) as [?response|?e] eqn:?;
              [ match goal with
                | |- context [negb (Nat.eqb ?st 200)] =>
                    destruct (negb (Nat.eqb st 200)) eqn:?;
                    [| match goal with
                       | |- context [uploadImage h s ?f] =>
                           destruct (uploadImage h s f) as [[?newUrl|?e] ?evs] eqn:?;
                           [ destruct (truthy newUrl) eqn:? |]
                       end ]
                end |] ]
       end |] ].

(** A blacklisted reference: what its callback returns and leaves. *)
Lemma processImage_blacklisted (h : Host) (s : ImageUploaderSettings) (img : Image)
    (p : UploadProgress) :
  isUrlBlacklisted s (url img) = true ->
  processImage h s img p
    = (unchanged img,
       bumpCurrent (bumpCurrent (bumpBlacklisted p)),
       [EvProgress (bumpCurrent (bumpBlacklisted p));
        EvProgress (bumpCurrent (bumpCurrent (bumpBlacklisted p)))]).
Proof. intros Hb. unfold processImage, tryBlock. by rewrite Hb. Qed.

(** A reference that is not blacklisted and starts with the endpoint's
    origin. *)
Lemma processImage_skipped (h : Host) (s : ImageUploaderSettings) (img : Image)
    (p : UploadProgress) (origin : string) :
  isUrlBlacklisted s (url img) = false ->
  URL_origin h (apiUrl s) = Ok origin ->
  startsWith (url img) origin = true ->
  processImage h s img p
    = (unchanged img,
       bumpCurrent (bumpCurrent (bumpSkipped p)),
       [EvProgress (bumpCurrent (bumpSkipped p));
        EvProgress (bumpCurrent (bumpCurrent (bumpSkipped p)))]).
Proof. intros Hb Ho Hs. unfold processImage, tryBlock. by rewrite Hb, Ho, Hs. Qed.

(** A reference that is not blacklisted, when [new URL(apiUrl)] throws. *)
Lemma processImage_origin_throws (h : Host) (s : ImageUploaderSettings) (img : Image)
    (p : UploadProgress) (e : JsError) :
  isUrlBlacklisted s (url img) = false ->
  URL_origin h (apiUrl s) = Throw e ->
  let msg := if String.eqb (message e) EmptyString then "未知错误" else message e in
  processImage h s img p
    = (unchanged img,
       bumpCurrent (recordFailure (url img) msg p),
       [EvProgress (bumpCurrent (recordFailure (url img) msg p))]).
Proof. intros Hb Ho. unfold processImage, tryBlock. by rewrite Hb, Ho. Qed.

(** A reference whose download succeeded and whose upload threw, or gave
    a falsy value (a missing field, say): it is counted as failed and
    keeps its markup. *)
Lemma processImage_upload_rejected (h : Host) (s : ImageUploaderSettings) (img : Image)
    (p : UploadProgress) (origin : string) (response : RequestUrlResponse) :
  isUrlBlacklisted s (url img) = false ->
  URL_origin h (apiUrl s) = Ok origin ->
  startsWith (url img) origin = false ->
  requestUrl h (url img) = Ok response ->
  rsp_status response = 200 ->
  (forall v, fst (uploadImage h s (downloadedFile h (url img) response)) = Ok v ->
             truthy v = false) ->
  fst (fst (processImage h s img p)) = unchanged img /\
  failed (snd (fst (processImage h s img p))) = S (failed p) /\
  success (snd (fst (processImage h s img p))) = success p.
Proof.
  intros Hb Ho Hs Hr Hst Hup. unfold processImage, tryBlock.
  rewrite Hb, Ho, Hs, Hr, Hst. cbn [Nat.eqb negb].
  destruct (uploadImage h s (downloadedFile h (url img) response)) as [[v|e] evs] eqn:E;
    cbn in Hup |- *.
  - by rewrite (Hup v eq_refl).
  - done.
Qed.

(** Every item moves exactly one of the four outcome counters by one and
    leaves [total] alone; [current] moves by one for an upload or a
    failure, and by two for a blacklisted or skipped reference, whose
    branch bumps it and whose [finally] bumps it again. *)
Lemma processImage_counters (h : Host) (s : ImageUploaderSettings) (img : Image)
    (p : UploadProgress) :
  let p' := snd (fst (processImage h s img p)) in
  total p' = total p /\
  success p' + failed p' + skipped p' + blacklisted p'
    = S (success p + failed p + skipped p + blacklisted p) /\
  success p <= success p' /\ failed p <= failed p' /\
  skipped p <= skipped p' /\ blacklisted p <= blacklisted p' /\
  current p' = S (current p) + (skipped p' - skipped p) + (blacklisted p' - blacklisted p).
Proof.
  unfold processImage, tryBlock. item_cases h s img; cbn; repeat split; lia.
Qed.

(** How much an item adds to each counter does not depend on the
    progress it finds: the callbacks of a batch may complete in any order
    without changing the final counts. *)
Lemma processImage_counters_shift (h : Host) (s : ImageUploaderSettings) (img : Image)
    (p q : UploadProgress) :
  let p' := snd (fst (processImage h s img p)) in
  let q' := snd (fst (processImage h s img q)) in
  success p' - success p = success q' - success q /\
  failed p' - failed p = failed q' - failed q /\
  skipped p' - skipped p = skipped q' - skipped q /\
  blacklisted p' - blacklisted p = blacklisted q' - blacklisted q /\
  current p' - current p = current q' - current q.
Proof.
  unfold processImage, tryBlock. item_cases h s img; cbn; repeat split; lia.
Qed.

(** After a successful upload the new markup is the original one with
    [replace] applied to it, from the old URL to what the upload gave. *)
Lemma processImage_success (h : Host) (s : ImageUploaderSettings) (img : Image)
    (p : UploadProgress) :
  success (snd (fst (processImage h s img p))) = S (success p) ->
  exists file newUrl,
    fst (uploadImage h s file) = Ok newUrl /\ truthy newUrl = true /\
    fst (fst (processImage h s img p))
      = {| resultMark := originalMark img;
           newMark := str_replace (originalMark img) (url img) (replacementText h newUrl) |}.
Proof.
  unfold processImage, tryBlock. item_cases h s img; cbn; try lia.
  intros _. eexists _, newUrl.
  match goal with H : uploadImage _ _ _ = _ |- _ => rewrite H end. by repeat split.
Qed.

(** When the upload gave a string without [$], the new markup is the
    original one with the first occurrence of the old URL replaced by it
    and the text before and after kept. *)
Lemma processImage_success_plain (h : Host) (s : ImageUploaderSettings) (img : Image)
    (p : UploadProgress) (before after : string) :
  success (snd (fst (processImage h s img p))) = S (success p) ->
  splitAtFirst (url img) (originalMark img) = Some (before, after) ->
  exists file newUrl,
    fst (uploadImage h s file) = Ok newUrl /\
    originalMark img = before +:+ url img +:+ after /\
    (forall u, newUrl = VStr u -> occurs "$" u = false ->
       newMark (fst (fst (processImage h s img p))) = before +:+ u +:+ after).
Proof.
  intros Hs Hsplit. destruct (processImage_success h s img p Hs) as (file & newUrl & Hu & _ & Hr).
  exists file, newUrl. split; [done|]. split; [by apply splitAtFirst_sound|].
  intros u -> Hplain. rewrite Hr. cbn.
  by destruct (str_replace_plain _ _ u _ _ Hsplit Hplain).
Qed.

(** C9. A [$] pattern in the URL the upload returned is expanded by
    [replace]: for the returned URL [http://api.test/a$$b.png] the new
    markup carries [a$b.png], not the returned URL. *)
Theorem C9_dollar_in_returned_url_is_expanded :
  fst (uploadImage (testHost (dataUrl dollarUrl)) (testSettings []) pngFile)
    = Ok (VStr dollarUrl) /\
  success (snd (fst (processImage (testHost (dataUrl dollarUrl)) (testSettings []) imageA
                       (initialProgress [imageA])))) = 1 /\
  originalMark imageA = "![](" +:+ url imageA +:+ ")" /\
  newMark (fst (fst (processImage (testHost (dataUrl dollarUrl)) (testSettings []) imageA
                       (initialProgress [imageA]))))
    = "![](http://api.test/a$b.png)" /\
  newMark (fst (fst (processImage (testHost (dataUrl dollarUrl)) (testSettings []) imageA
                       (initialProgress [imageA]))))
    <> "![](" +:+ dollarUrl +:+ ")".
Proof. repeat split; try (vm_compute; reflexivity). vm_compute. discriminate. Qed.

(* ================================================================== *)
(** ** Policy checks on one item                                       *)
(* ================================================================== *)

Lemma isUrlBlacklisted_spec (s : ImageUploaderSettings) (u : string) :
  isUrlBlacklisted s u = true <->
  exists d, In d (blacklistDomains s) /\
    startsWith (stripProtocol (toLowerCase u)) (stripProtocol (trim (toLowerCase d))) = true.
Proof. unfold isUrlBlacklisted. apply existsb_exists. Qed.

(** C3, as the code has it. A reference whose URL, lower-cased and then
    stripped of a leading [http://] or [https://], starts with some
    blacklist entry lower-cased, trimmed and then stripped likewise (the
    entry is trimmed, the URL is not) is counted as blacklisted, keeps
    its markup, and causes no download and no upload. *)
Theorem C3_blacklisted_reference_passes_through (h : Host) (s : ImageUploaderSettings)
    (img : Image) (p : UploadProgress) :
  (exists d, In d (blacklistDomains s) /\
     startsWith (stripProtocol (toLowerCase (url img)))
                (stripProtocol (trim (toLowerCase d))) = true) ->
  exists p' evs,
    processImage h s img p
      = ({| resultMark := originalMark img; newMark := originalMark img |}, p', evs) /\
    blacklisted p' = S (blacklisted p) /\
    success p' = success p /\ failed p' = failed p /\ skipped p' = skipped p /\
    errors p' = errors p /\
    quiet evs.
Proof.
  intros Hd. apply isUrlBlacklisted_spec in Hd.
  rewrite (processImage_blacklisted h s img p Hd).
  eexists _, _. split; [reflexivity|]. cbn. repeat split. repeat constructor.
Qed.

Lemma C3_blacklisted_reference_passes_through_witness :
  exists p' evs,
    processImage (testHost VNull) (testSettings ["HTTPS://IMG.example "]) imageA
        (initialProgress [imageA])
      = ({| resultMark := originalMark imageA; newMark := originalMark imageA |}, p', evs) /\
    blacklisted p' = 1 /\
    success p' = 0 /\ failed p' = 0 /\ skipped p' = 0 /\
    errors p' = [] /\
    quiet evs.
Proof.
  apply (C3_blacklisted_reference_passes_through (testHost VNull)
           (testSettings ["HTTPS://IMG.example "]) imageA (initialProgress [imageA])).
  exists "HTTPS://IMG.example ". split; [left; reflexivity | reflexivity].
Defined.

(** C3 as stated fails: the entry [ example.com] (with its leading
    blank) and the URL [ example.com/a.png] match when both are stripped
    and lower-cased alike, in either order, yet the reference is not
    blacklisted: its download is requested. *)
Lemma C3_counterexample :
  In " example.com" (blacklistDomains (testSettings [" example.com"])) /\
  startsWith (toLowerCase (stripProtocol (url spacedImage)))
             (toLowerCase (stripProtocol " example.com")) = true /\
  startsWith (stripProtocol (toLowerCase (url spacedImage)))
             (stripProtocol (toLowerCase " example.com")) = true /\
  isUrlBlacklisted (testSettings [" example.com"]) (url spacedImage) = false /\
  blacklisted (snd (fst (processImage (testHost (dataUrl "http://api.test/a.png"))
                           (testSettings [" example.com"]) spacedImage
                           (initialProgress [spacedImage])))) = 0 /\
  In (EvRequestUrl (url spacedImage))
     (snd (processImage (testHost (dataUrl "http://api.test/a.png"))
             (testSettings [" example.com"]) spacedImage (initialProgress [spacedImage]))).
Proof.
  split; [left; reflexivity|].
  repeat split; try (vm_compute; reflexivity).
  left. reflexivity.
Qed.

(** C4, as the code has it. A reference that is not blacklisted and
    whose URL starts with the origin of the configured endpoint is
    counted as skipped, keeps its markup, and causes no download and no
    upload. *)
Theorem C4_hosted_reference_is_skipped (h : Host) (s : ImageUploaderSettings)
    (img : Image) (p : UploadProgress) (origin : string) :
  isUrlBlacklisted s (url img) = false ->
  URL_origin h (apiUrl s) = Ok origin ->
  startsWith (url img) origin = true ->
  exists p' evs,
    processImage h s img p
      = ({| resultMark := originalMark img; newMark := originalMark img |}, p', evs) /\
    skipped p' = S (skipped p) /\
    success p' = success p /\ failed p' = failed p /\ blacklisted p' = blacklisted p /\
    errors p' = errors p /\
    quiet evs.
Proof.
  intros Hb Ho Hs. rewrite (processImage_skipped h s img p origin Hb Ho Hs).
  eexists _, _. split; [reflexivity|]. cbn. repeat split. repeat constructor.
Qed.

Lemma C4_hosted_reference_is_skipped_witness :
  exists p' evs,
    processImage (testHost VNull) (testSettings ["img.example"]) hostedImage
        (initialProgress [hostedImage])
      = ({| resultMark := originalMark hostedImage; newMark := originalMark hostedImage |},
         p', evs) /\
    skipped p' = 1 /\
    success p' = 0 /\ failed p' = 0 /\ blacklisted p' = 0 /\
    errors p' = [] /\
    quiet evs.
Proof.
  apply (C4_hosted_reference_is_skipped (testHost VNull) (testSettings ["img.example"])
           hostedImage (initialProgress [hostedImage]) "http://api.test");
    reflexivity.
Defined.

(** C4 as stated fails: the blacklist is consulted first, so a reference
    on the endpoint's own origin that is also blacklisted is counted as
    blacklisted, not as skipped. *)
Lemma C4_counterexample :
  URL_origin (testHost VNull) (apiUrl (testSettings ["api.test"])) = Ok "http://api.test" /\
  startsWith (url hostedImage) "http://api.test" = true /\
  skipped (snd (fst (processImage (testHost VNull) (testSettings ["api.test"]) hostedImage
                       (initialProgress [hostedImage])))) = 0 /\
  blacklisted (snd (fst (processImage (testHost VNull) (testSettings ["api.test"]) hostedImage
                           (initialProgress [hostedImage])))) = 1.
Proof. repeat split; vm_compute; reflexivity. Qed.

(** C7, as the code has it. When [new URL(apiUrl)] throws for a
    reference that is not blacklisted, the callback still returns: the
    reference is not counted as skipped but as failed, with the
    exception's message recorded against its URL; it keeps its markup and
    causes no download and no upload. *)
Theorem C7_unparsable_endpoint_fails_the_item (h : Host) (s : ImageUploaderSettings)
    (img : Image) (p : UploadProgress) (e : JsError) :
  isUrlBlacklisted s (url img) = false ->
  URL_origin h (apiUrl s) = Throw e ->
  exists p' evs,
    processImage h s img p
      = ({| resultMark := originalMark img; newMark := originalMark img |}, p', evs) /\
    skipped p' = skipped p /\
    failed p' = S (failed p) /\
    success p' = success p /\ blacklisted p' = blacklisted p /\
    errors p' = errors p ++
      [(url img, if String.eqb (message e) EmptyString then "未知错误" else message e)] /\
    quiet evs.
Proof.
  intros Hb Ho. rewrite (processImage_origin_throws h s img p e Hb Ho).
  eexists _, _. split; [reflexivity|]. cbn. repeat split. repeat constructor.
Qed.

Lemma C7_unparsable_endpoint_fails_the_item_witness :
  exists p' evs,
    processImage (testHost (dataUrl "http://api.test/a.png")) brokenSettings imageA
        (initialProgress [imageA])
      = ({| resultMark := originalMark imageA; newMark := originalMark imageA |}, p', evs) /\
    skipped p' = 0 /\
    failed p' = 1 /\
    success p' = 0 /\ blacklisted p' = 0 /\
    errors p' = [(url imageA, "Invalid URL")] /\
    quiet evs.
Proof.
  apply (C7_unparsable_endpoint_fails_the_item (testHost (dataUrl "http://api.test/a.png"))
           brokenSettings imageA (initialProgress [imageA])
           (mkError "TypeError" "Invalid URL"));
    reflexivity.
Defined.

(** C7 as stated fails: with an endpoint that [new URL] rejects, the
    reference is not processed further: no download is issued and it is
    counted as failed, although its download and its upload would both
    have succeeded. *)
Lemma C7_counterexample :
  URL_origin (testHost (dataUrl "http://api.test/a.png")) (apiUrl brokenSettings)
    = Throw (mkError "TypeError" "Invalid URL") /\
  isUrlBlacklisted brokenSettings (url imageA) = false /\
  (exists r, requestUrl (testHost (dataUrl "http://api.test/a.png")) (url imageA) = Ok r
             /\ rsp_status r = 200) /\
  fst (uploadImage (testHost (dataUrl "http://api.test/a.png")) brokenSettings pngFile)
    = Ok (VStr "http://api.test/a.png") /\
  ~ In (EvRequestUrl (url imageA))
       (snd (processImage (testHost (dataUrl "http://api.test/a.png")) brokenSettings imageA
               (initialProgress [imageA]))) /\
  failed (snd (fst (processImage (testHost (dataUrl "http://api.test/a.png")) brokenSettings
                      imageA (initialProgress [imageA])))) = 1 /\
  success (snd (fst (processImage (testHost (dataUrl "http://api.test/a.png")) brokenSettings
                       imageA (initialProgress [imageA])))) = 0.
Proof.
  repeat split; try (vm_compute; reflexivity).
  - eexists. split; reflexivity.
  - vm_compute. intros [H|[]]. discriminate H.
Qed.

(* ================================================================== *)
(** ** The whole run                                                   *)
(* ================================================================== *)

Lemma processBatch_app (h : Host) (s : ImageUploaderSettings) (l1 l2 : list Image) :
  forall p,
    processBatch h s (l1 ++ l2) p
    = let '(r1, p1, e1) := processBatch h s l1 p in
      let '(r2, p2, e2) := processBatch h s l2 p1 in
      (r1 ++ r2, p2, e1 ++ e2).
Proof.
  induction l1 as [|img rest IH]; intros p; cbn.
  - by destruct (processBatch h s l2 p) as [[r2 p2] e2].
  - destruct (processImage h s img p) as [[r p1] e1]. rewrite IH.
    destruct (processBatch h s rest p1) as [[r1 p2] e2].
    destruct (processBatch h s l2 p2) as [[r2 p3] e3].
    by rewrite app_assoc.
Qed.

(** With a batch size of at least one the loop ends, and its batches
    amount to the items taken one after another. *)
Lemma batchLoop_flatten (h : Host) (s : ImageUploaderSettings) (maxConcurrent : nat) :
  1 <= maxConcurrent ->
  forall fuel pending content p,
    List.length pending <= fuel ->
    batchLoop fuel h s maxConcurrent pending content p
    = let '(results, p', evs) := processBatch h s pending p in
      Some (applyResults content results, p', evs).
Proof.
  intros Hn. induction fuel as [|fuel IH]; intros pending content p Hlen.
  - destruct pending; [reflexivity | cbn in Hlen; lia].
  - destruct pending as [|img rest]; [reflexivity|].
    cbn [batchLoop]. remember (img :: rest) as pending eqn:Hp.
    assert (processBatch h s pending p
            = processBatch h s (take maxConcurrent pending ++ drop maxConcurrent pending) p)
      as -> by (by rewrite take_drop).
    rewrite processBatch_app.
    destruct (processBatch h s (take maxConcurrent pending) p) as [[r1 p1] e1].
    rewrite IH.
    + destruct (processBatch h s (drop maxConcurrent pending) p1) as [[r2 p2] e2].
      unfold applyResults. by rewrite fold_left_app.
    + rewrite length_drop. subst pending. cbn in *. lia.
Qed.

(** The run returns whenever the batch size is at least one. *)
Lemma uploadImagesConcurrently_returns (h : Host) (s : ImageUploaderSettings)
    (content : string) (images : list Image) (maxConcurrent : nat) :
  1 <= maxConcurrent ->
  uploadImagesConcurrently h s content images maxConcurrent
  = let '(results, p, evs) := processBatch h s images (initialProgress images) in
    Some (applyResults content results, p, evs).
Proof. intros Hn. unfold uploadImagesConcurrently. by apply batchLoop_flatten. Qed.

Lemma processBatch_counters (h : Host) (s : ImageUploaderSettings) (l : list Image) :
  forall p,
    let p' := snd (fst (processBatch h s l p)) in
    total p' = total p /\
    success p' + failed p' + skipped p' + blacklisted p'
      = List.length l + (success p + failed p + skipped p + blacklisted p) /\
    skipped p <= skipped p' /\ blacklisted p <= blacklisted p' /\
    current p' = List.length l + current p + (skipped p' - skipped p)
                 + (blacklisted p' - blacklisted p).
Proof.
  induction l as [|img rest IH]; intros p; cbn.
  - repeat split; lia.
  - pose proof (processImage_counters h s img p) as Hi.
    destruct (processImage h s img p) as [[r p1] e1]. cbn in Hi.
    specialize (IH p1).
    destruct (processBatch h s rest p1) as [[rs p2] e2]. cbn in IH |- *.
    repeat split; lia.
Qed.

(** What the counters hold when a run ends: the four outcome counters
    add up to [total], and [current] is [total] plus one more for every
    blacklisted and every skipped reference. *)
Lemma uploadImagesConcurrently_counters (h : Host) (s : ImageUploaderSettings)
    (content : string) (images : list Image) (maxConcurrent : nat) :
  1 <= maxConcurrent ->
  exists content' p evs,
    uploadImagesConcurrently h s content images maxConcurrent = Some (content', p, evs) /\
    total p = List.length images /\
    success p + failed p + skipped p + blacklisted p = total p /\
    current p = total p + skipped p + blacklisted p.
Proof.
  intros Hn. rewrite (uploadImagesConcurrently_returns _ _ _ _ _ Hn).
  pose proof (processBatch_counters h s images (initialProgress images)) as Hc.
  destruct (processBatch h s images (initialProgress images)) as [[rs p] evs].
  cbn in Hc. eexists _, p, evs. split; [reflexivity|]. lia.
Qed.

(** C2. A blacklisted reference moves [current] twice: after a run over
    one blacklisted reference [current] is 2, while [total] and the sum
    of the four outcome counters are 1. *)
Theorem C2_blacklisted_reference_counted_twice :
  uploadImagesConcurrently (testHost (dataUrl "http://api.test/a.png"))
    (testSettings ["img.example"]) document [imageA] defaultMaxConcurrent
  = Some (document,
          {| total := 1; current := 2; success := 0; failed := 0; skipped := 0;
             blacklisted := 1; errors := [] |},
          [EvProgress {| total := 1; current := 1; success := 0; failed := 0;
                         skipped := 0; blacklisted := 1; errors := [] |};
           EvProgress {| total := 1; current := 2; success := 0; failed := 0;
                         skipped := 0; blacklisted := 1; errors := [] |}]).
Proof. vm_compute. reflexivity. Qed.

(** The same for a skipped reference. *)
Lemma skipped_reference_counted_twice :
  exists content evs,
    uploadImagesConcurrently (testHost VNull) (testSettings []) document [hostedImage]
      defaultMaxConcurrent
    = Some (content,
            {| total := 1; current := 2; success := 0; failed := 0; skipped := 1;
               blacklisted := 0; errors := [] |}, evs).
Proof. eexists _, _. vm_compute. reflexivity. Qed.

Lemma processBatch_all_blacklisted (h : Host) (s : ImageUploaderSettings) (l : list Image) :
  (forall u, isUrlBlacklisted s u = true) ->
  forall p,
    exists p' evs,
      processBatch h s l p = (List.map unchanged l, p', evs) /\
      blacklisted p' = List.length l + blacklisted p /\
      success p' = success p /\ failed p' = failed p /\ skipped p' = skipped p /\
      errors p' = errors p /\
      quiet evs.
Proof.
  intros Hall. induction l as [|img rest IH]; intros p; cbn.
  - eexists _, _. split; [reflexivity|]. repeat split. constructor.
  - rewrite (processImage_blacklisted h s img p (Hall _)).
    destruct (IH (bumpCurrent (bumpCurrent (bumpBlacklisted p))))
      as (p' & evs & -> & Hb & Hs & Hf & Hk & He & Hq).
    eexists _, _. split; [reflexivity|]. cbn in *.
    repeat split; try done; try lia.
    repeat constructor. exact Hq.
Qed.

(** C10. If some blacklist entry is empty once trimmed, lower-cased and
    stripped of a leading [http://] or [https://] (the entry [http://],
    say), then [isUrlBlacklisted] is true of every URL, and a run counts
    every reference as blacklisted, keeps every markup, and causes no
    download and no upload. *)
Theorem C10_empty_entry_blacklists_everything (h : Host) (s : ImageUploaderSettings)
    (maxConcurrent : nat) :
  (exists d, In d (blacklistDomains s) /\
             stripProtocol (toLowerCase (trim d)) = EmptyString) ->
  1 <= maxConcurrent ->
  (forall u, isUrlBlacklisted s u = true) /\
  (forall content images,
     exists content' p evs,
       uploadImagesConcurrently h s content images maxConcurrent = Some (content', p, evs) /\
       blacklisted p = List.length images /\
       success p = 0 /\ failed p = 0 /\ skipped p = 0 /\ errors p = [] /\
       quiet evs).
Proof.
  intros (d & Hin & Hempty) Hn.
  assert (forall u, isUrlBlacklisted s u = true) as Hall.
  { intros u. apply isUrlBlacklisted_spec. exists d. split; [done|].
    by rewrite trim_toLowerCase, Hempty. }
  split; [done|]. intros content images.
  rewrite (uploadImagesConcurrently_returns _ _ _ _ _ Hn).
  destruct (processBatch_all_blacklisted h s images Hall (initialProgress images))
    as (p & evs & -> & Hb & Hs & Hf & Hk & He & Hq).
  eexists _, p, evs. split; [reflexivity|]. cbn in *. repeat split; try done. lia.
Qed.

Lemma C10_empty_entry_blacklists_everything_witness :
  (forall u, isUrlBlacklisted (testSettings ["http://"]) u = true) /\
  (forall content images,
     exists content' p evs,
       uploadImagesConcurrently (testHost VNull) (testSettings ["http://"]) content images
         defaultMaxConcurrent = Some (content', p, evs) /\
       blacklisted p = List.length images /\
       success p = 0 /\ failed p = 0 /\ skipped p = 0 /\ errors p = [] /\
       quiet evs).
Proof.
  apply (C10_empty_entry_blacklists_everything (testHost VNull)
           (testSettings ["http://"]) defaultMaxConcurrent).
  - exists "http://". split; [left; reflexivity | reflexivity].
  - unfold defaultMaxConcurrent. lia.
Defined.

(* ================================================================== *)
(** ** More facts about strings                                        *)
(* ================================================================== *)

Lemma length_append (s1 s2 : string) :
  String.length (s1 +:+ s2) = String.length s1 + String.length s2.
Proof.
  induction s1 as [|c r IH]; [reflexivity|]. rewrite append_cons. cbn. by rewrite IH.
Qed.

Lemma occurs_append (c : ascii) (s1 s2 : string) :
  occurs c (s1 +:+ s2) = occurs c s1 || occurs c s2.
Proof.
  induction s1 as [|c' r IH]; [reflexivity|].
  rewrite append_cons. cbn. rewrite IH. by rewrite orb_assoc.
Qed.

Lemma hasLineTerminator_append (s1 s2 : string) :
  hasLineTerminator (s1 +:+ s2) = hasLineTerminator s1 || hasLineTerminator s2.
Proof.
  induction s1 as [|c' r IH]; [reflexivity|].
  rewrite append_cons. cbn. rewrite IH. by rewrite orb_assoc.
Qed.

Lemma dropPrefix_append (p rest : string) : dropPrefix p (p +:+ rest) = Some rest.
Proof.
  induction p as [|a p' IH]; [reflexivity|].
  rewrite append_cons. cbn. by rewrite Ascii.eqb_refl.
Qed.

Lemma splitAtFirst_head (pat s rest : string) :
  dropPrefix pat s = Some rest -> splitAtFirst pat s = Some (EmptyString, rest).
Proof. intros H. destruct s; cbn [splitAtFirst]; by rewrite H. Qed.

(** A pattern that occurs is found. *)
Lemma splitAtFirst_complete (pat b a : string) :
  exists b' a', splitAtFirst pat (b +:+ pat +:+ a) = Some (b', a').
Proof.
  induction b as [|c r IH].
  - rewrite append_empty_l. exists EmptyString, a.
    apply splitAtFirst_head, dropPrefix_append.
  - rewrite append_cons. cbn [splitAtFirst].
    destruct (dropPrefix pat (String c (r +:+ pat +:+ a))); [eauto|].
    destruct IH as (b' & a' & ->). eauto.
Qed.

(** A pattern that does not occur at the head of any suffix is not found. *)
Lemma splitAtFirst_none_tail (pat : string) (c : ascii) (r : string) :
  splitAtFirst pat (String c r) = None ->
  dropPrefix pat (String c r) = None /\ splitAtFirst pat r = None.
Proof.
  cbn [splitAtFirst]. destruct (dropPrefix pat (String c r)); [discriminate|].
  destruct (splitAtFirst pat r) as [[? ?]|]; [discriminate|]. done.
Qed.

(* ================================================================== *)
(** ** The image links of a text                                       *)
(* ================================================================== *)

Lemma matchTarget_sound : forall s u rest,
  matchTarget s = Some (u, rest) ->
  s = u +:+ ")" +:+ rest /\ occurs ")" u = false /\ hasLineTerminator u = false.
Proof.
  induction s as [|c r IH]; intros u rest H.
  - cbn in H. discriminate.
  - cbn [matchTarget] in H.
    destruct (dropPrefix ")" (String c r)) as [t|] eqn:E.
    + inversion H; subst. apply dropPrefix_sound in E. by rewrite E.
    + destruct (isLineTerminator c) eqn:Hlt; [discriminate|].
      destruct (matchTarget r) as [[u' rest']|] eqn:E'; [|discriminate].
      inversion H; subst. destruct (IH _ _ eq_refl) as (-> & Ho & Hl).
      rewrite append_cons. split; [done|]. cbn. rewrite Ho, Hl, Hlt.
      split; [|done]. rewrite orb_false_r.
      cbn [dropPrefix] in E. destruct (Ascii.eqb ")" c) eqn:Ec; [discriminate|].
      by rewrite Ascii.eqb_sym.
Qed.

Lemma matchAlt_sound : forall s alt u rest,
  matchAlt s = Some (alt, u, rest) ->
  s = alt +:+ "](" +:+ u +:+ ")" +:+ rest /\
  hasLineTerminator alt = false /\
  occurs ")" u = false /\ hasLineTerminator u = false.
Proof.
  induction s as [|c r IH]; intros alt u rest H.
  - cbn in H. discriminate.
  - cbn [matchAlt] in H.
    destruct (match dropPrefix "](" (String c r) with
              | Some t => matchTarget t
              | None => None
              end) as [[u0 rest0]|] eqn:E.
    + inversion H; subst.
      destruct (dropPrefix "](" (String c r)) as [t|] eqn:Ed; [|discriminate].
      apply dropPrefix_sound in Ed. apply matchTarget_sound in E as (-> & Ho & Hl).
      by rewrite Ed.
    + destruct (isLineTerminator c) eqn:Hlt; [discriminate|].
      destruct (matchAlt r) as [[[alt' u'] rest']|] eqn:E'; [|discriminate].
      inversion H; subst. destruct (IH _ _ _ eq_refl) as (-> & Ha & Ho & Hl).
      rewrite append_cons. cbn. by rewrite Hlt, Ha.
Qed.

Lemma matchImageAt_sound (s alt u rest : string) :
  matchImageAt s = Some (alt, u, rest) ->
  s = imageMark alt u +:+ rest /\
  hasLineTerminator alt = false /\
  occurs ")" u = false /\ hasLineTerminator u = false.
Proof.
  unfold matchImageAt. intros H.
  destruct (dropPrefix "![" s) as [t|] eqn:E; [|discriminate].
  apply dropPrefix_sound in E. apply matchAlt_sound in H as (-> & Ha & Ho & Hl).
  split; [|done]. rewrite E. unfold imageMark. by rewrite !append_assoc.
Qed.

(** Every match sits in the text at its index. *)
Lemma matchAllFrom_located : forall s skip index i img,
  In (i, img) (matchAllFrom skip index s) ->
  exists alt pre post,
    originalMark img = imageMark alt (url img) /\
    hasLineTerminator alt = false /\
    occurs ")" (url img) = false /\ hasLineTerminator (url img) = false /\
    s = pre +:+ originalMark img +:+ post /\
    i = index + String.length pre.
Proof.
  induction s as [|c r IH]; intros skip index i img Hin; [destruct Hin|].
  assert (forall k, In (i, img) (matchAllFrom k (S index) r) ->
            exists alt pre post,
              originalMark img = imageMark alt (url img) /\
              hasLineTerminator alt = false /\
              occurs ")" (url img) = false /\ hasLineTerminator (url img) = false /\
              String c r = pre +:+ originalMark img +:+ post /\
              i = index + String.length pre) as Htail.
  { intros k Hk. destruct (IH _ _ _ _ Hk) as (alt & pre & post & Hm & Ha & Ho & Hl & -> & ->).
    exists alt, (String c pre), post. rewrite append_cons. cbn. repeat split; try done; lia. }
  cbn [matchAllFrom] in Hin. destruct skip as [|k]; [|by eapply Htail].
  destruct (matchImageAt (String c r)) as [[[alt u] rest]|] eqn:E; [|by eapply Htail].
  destruct Hin as [Heq|Hin]; [|by eapply Htail].
  inversion Heq; subst. apply matchImageAt_sound in E as (E & Ha & Ho & Hl).
  exists alt, EmptyString, rest. cbn [url originalMark String.length].
  rewrite append_empty_l. repeat split; try done; lia.
Qed.

(** X1. A reference found in a text is an image link of that text: its
    markup is [![alt](url)] with no line break in [alt] or [url] and no
    [)] in [url]; the markup occurs in the text, and the URL is found in
    the markup by [replace]. *)
Theorem extractImages_shape (content : string) (img : Image) :
  In img (extractImages content) ->
  exists alt,
    originalMark img = "![" +:+ alt +:+ "](" +:+ url img +:+ ")" /\
    hasLineTerminator alt = false /\
    occurs ")" (url img) = false /\ hasLineTerminator (url img) = false /\
    (exists pre post, content = pre +:+ originalMark img +:+ post) /\
    (exists before after, splitAtFirst (url img) (originalMark img) = Some (before, after)).
Proof.
  unfold extractImages, matchAllImages. intros Hin.
  apply in_map_iff in Hin as ([i img'] & Heq & Hin). cbn in Heq. subst img'.
  destruct (matchAllFrom_located _ _ _ _ _ Hin)
    as (alt & pre & post & Hm & Ha & Ho & Hl & Hs & _).
  exists alt. repeat split; try done.
  - eauto.
  - rewrite Hm. unfold imageMark.
    replace ("![" +:+ alt +:+ "](" +:+ url img +:+ ")")
      with (("![" +:+ alt +:+ "](") +:+ url img +:+ ")")
      by (by rewrite !append_assoc).
    apply splitAtFirst_complete.
Qed.

Lemma extractImages_shape_witness :
  exists alt,
    originalMark imageA = "![" +:+ alt +:+ "](" +:+ url imageA +:+ ")" /\
    hasLineTerminator alt = false /\
    occurs ")" (url imageA) = false /\ hasLineTerminator (url imageA) = false /\
    (exists pre post, document = pre +:+ originalMark imageA +:+ post) /\
    (exists before after,
       splitAtFirst (url imageA) (originalMark imageA) = Some (before, after)).
Proof.
  apply (extractImages_shape document imageA). left. reflexivity.
Defined.

Lemma imageMark_length (alt u : string) :
  String.length (imageMark alt u) = 5 + String.length alt + String.length u.
Proof. unfold imageMark. rewrite !length_append. cbn. lia. Qed.

Lemma matchAllFrom_lower : forall s skip index i img,
  In (i, img) (matchAllFrom skip index s) -> index + skip <= i.
Proof.
  induction s as [|c r IH]; intros skip index i img Hin; [destruct Hin|].
  cbn [matchAllFrom] in Hin. destruct skip as [|k].
  - destruct (matchImageAt (String c r)) as [[[alt u] rest]|].
    + destruct Hin as [Heq|Hin]; [inversion Heq; lia|]. apply IH in Hin. lia.
    + apply IH in Hin. lia.
  - apply IH in Hin. lia.
Qed.

Lemma matchAllFrom_in_order : forall s skip index k (m1 m2 : nat * Image),
  matchAllFrom skip index s !! k = Some m1 ->
  matchAllFrom skip index s !! S k = Some m2 ->
  fst m1 + String.length (originalMark (snd m1)) <= fst m2.
Proof.
  induction s as [|c r IH]; intros skip index k m1 m2 H1 H2; [discriminate|].
  cbn [matchAllFrom] in H1, H2. destruct skip as [|j]; [|by eapply IH].
  destruct (matchImageAt (String c r)) as [[[alt u] rest]|]; [|by eapply IH].
  destruct k as [|k].
  - cbn in H1, H2. inversion H1; subst. cbn.
    apply list_elem_of_lookup_2, list_elem_of_In in H2.
    destruct m2 as [i2 img2]. apply matchAllFrom_lower in H2.
    rewrite imageMark_length in *. cbn. lia.
  - cbn in H1, H2. by eapply IH.
Qed.

(** X2. The matches are listed in text order and do not overlap: each
    starts at or after the end of the one before it. *)
Theorem matchAllImages_in_order (content : string) (k : nat) (m1 m2 : nat * Image) :
  matchAllImages content !! k = Some m1 ->
  matchAllImages content !! S k = Some m2 ->
  fst m1 + String.length (originalMark (snd m1)) <= fst m2.
Proof. apply matchAllFrom_in_order. Qed.

Lemma matchAllImages_in_order_witness :
  0 + String.length "![](a)" <= 7.
Proof.
  apply (matchAllImages_in_order "![](a) ![](b)" 0
           (0, {| url := "a"; originalMark := "![](a)" |})
           (7, {| url := "b"; originalMark := "![](b)" |})); reflexivity.
Defined.

Lemma matchTarget_complete (u rest : string) :
  occurs ")" u = false -> hasLineTerminator u = false ->
  matchTarget (u +:+ ")" +:+ rest) = Some (u, rest).
Proof.
  induction u as [|c r IH]; intros Ho Hl.
  - rewrite append_empty_l. reflexivity.
  - cbn in Ho, Hl. apply orb_false_elim in Ho as [Hc Ho].
    apply orb_false_elim in Hl as [Hlc Hl].
    rewrite append_cons. cbn [matchTarget dropPrefix].
    rewrite Ascii.eqb_sym, Hc, Hlc. by rewrite (IH Ho Hl).
Qed.

Lemma matchAlt_complete (alt u rest : string) :
  occurs "]" alt = false -> hasLineTerminator alt = false ->
  occurs ")" u = false -> hasLineTerminator u = false ->
  matchAlt (alt +:+ "](" +:+ u +:+ ")" +:+ rest) = Some (alt, u, rest).
Proof.
  intros Hb Ha Ho Hl. induction alt as [|c r IH].
  - rewrite append_empty_l.
    change ("](" +:+ u +:+ ")" +:+ rest) with (String "]" (String "(" (u +:+ ")" +:+ rest))).
    cbn [matchAlt dropPrefix Ascii.eqb Bool.eqb]. cbn [andb].
    by rewrite (matchTarget_complete u rest Ho Hl).
  - cbn in Hb, Ha. apply orb_false_elim in Hb as [Hc Hb].
    apply orb_false_elim in Ha as [Hlc Ha].
    rewrite append_cons. cbn [matchAlt dropPrefix].
    rewrite Ascii.eqb_sym, Hc, Hlc. by rewrite (IH Hb Ha).
Qed.

Lemma matchImageAt_complete (alt u rest : string) :
  occurs "]" alt = false -> hasLineTerminator alt = false ->
  occurs ")" u = false -> hasLineTerminator u = false ->
  matchImageAt (imageMark alt u +:+ rest) = Some (alt, u, rest).
Proof.
  intros Hb Ha Ho Hl. unfold matchImageAt, imageMark.
  rewrite !append_assoc, dropPrefix_append.
  by apply matchAlt_complete.
Qed.

Lemma matchAllFrom_index : forall s skip i j,
  List.map snd (matchAllFrom skip i s) = List.map snd (matchAllFrom skip j s).
Proof.
  induction s as [|c r IH]; intros skip i j; [reflexivity|].
  cbn [matchAllFrom]. destruct skip as [|k]; [|apply IH].
  destruct (matchImageAt (String c r)) as [[[alt u] rest]|]; [|apply IH].
  cbn. f_equal. apply IH.
Qed.

Lemma matchAllFrom_skip : forall a s i,
  List.map snd (matchAllFrom (String.length a) i (a +:+ s))
  = List.map snd (matchAllFrom 0 0 s).
Proof.
  induction a as [|c r IH]; intros s i.
  - rewrite append_empty_l. apply matchAllFrom_index.
  - rewrite append_cons. cbn [matchAllFrom String.length]. apply IH.
Qed.

Lemma matchImageAt_other (c : ascii) (r : string) :
  Ascii.eqb c "!" = false -> matchImageAt (String c r) = None.
Proof.
  intros Hc. unfold matchImageAt. cbn [dropPrefix]. by rewrite Ascii.eqb_sym, Hc.
Qed.

Lemma matchAllFrom_first (alt u rest : string) :
  occurs "]" alt = false -> hasLineTerminator alt = false ->
  occurs ")" u = false -> hasLineTerminator u = false ->
  forall pre index,
    occurs "!" pre = false ->
    List.map snd (matchAllFrom 0 index (pre +:+ imageMark alt u +:+ rest))
    = {| url := u; originalMark := imageMark alt u |}
        :: List.map snd (matchAllFrom 0 0 rest).
Proof.
  intros Hb Ha Ho Hl. induction pre as [|c r IH]; intros index Hp.
  - rewrite append_empty_l.
    pose proof (matchImageAt_complete alt u rest Hb Ha Ho Hl) as Hm.
    set (t := "[" +:+ alt +:+ "](" +:+ u +:+ ")").
    assert (imageMark alt u = String "!" t) as Em by reflexivity.
    assert (imageMark alt u +:+ rest = String "!" (t +:+ rest)) as Ew
      by (by rewrite Em, append_cons).
    rewrite Ew in Hm |- *. cbn [matchAllFrom]. rewrite Hm. cbn [List.map snd].
    f_equal. rewrite Em. cbn [String.length]. rewrite Nat.sub_1_r. cbn [Nat.pred].
    apply matchAllFrom_skip.
  - cbn in Hp. apply orb_false_elim in Hp as [Hc Hp].
    rewrite append_cons. cbn [matchAllFrom].
    rewrite (matchImageAt_other _ _ Hc). apply (IH _ Hp).
Qed.

(** X3. A text that begins, after a stretch without [!], with an image
    link whose alt text has no []] and whose target has no [)], neither
    with a line break, yields that link first, with the target as its
    URL, and then the links of the rest of the text. *)
Theorem extractImages_first (pre alt u rest : string) :
  occurs "!" pre = false ->
  occurs "]" alt = false -> hasLineTerminator alt = false ->
  occurs ")" u = false -> hasLineTerminator u = false ->
  extractImages (pre +:+ ("![" +:+ alt +:+ "](" +:+ u +:+ ")") +:+ rest)
  = {| url := u; originalMark := "![" +:+ alt +:+ "](" +:+ u +:+ ")" |}
      :: extractImages rest.
Proof.
  intros Hp Hb Ha Ho Hl. unfold extractImages, matchAllImages.
  by apply (matchAllFrom_first alt u rest Hb Ha Ho Hl pre 0).
Qed.

Lemma extractImages_first_witness :
  extractImages ("see " +:+ ("![" +:+ "" +:+ "](" +:+ "http://img.example/a.png" +:+ ")")
                 +:+ " and more")
  = {| url := "http://img.example/a.png";
       originalMark := "![" +:+ "" +:+ "](" +:+ "http://img.example/a.png" +:+ ")" |}
      :: extractImages " and more".
Proof.
  apply (extractImages_first "see " "" "http://img.example/a.png" " and more");
    reflexivity.
Defined.

Lemma matchAllFrom_none : forall s skip index,
  splitAtFirst "![" s = None -> matchAllFrom skip index s = [].
Proof.
  induction s as [|c r IH]; intros skip index H; [reflexivity|].
  apply splitAtFirst_none_tail in H as [Hd Hr].
  cbn [matchAllFrom]. destruct skip as [|k]; [|by apply IH].
  unfold matchImageAt. rewrite Hd. by apply IH.
Qed.

(** X4. On a text in which [![] does not occur, [uploadAllImages] finds
    nothing to do: it shows one notice, makes no request and leaves the
    editor's text as it is. *)
Theorem uploadAllImages_no_images (h : Host) (s : ImageUploaderSettings) (content : string) :
  splitAtFirst "![" content = None ->
  extractImages content = [] /\
  uploadAllImages h s content = Some (content, [EvNotice "没有找到需要上传的图片"]).
Proof.
  intros H. assert (extractImages content = []) as He.
  { unfold extractImages, matchAllImages. by rewrite (matchAllFrom_none _ _ _ H). }
  split; [done|]. unfold uploadAllImages. by rewrite He.
Qed.

Lemma uploadAllImages_no_images_witness :
  extractImages "no images here! [link](http://x)" = [] /\
  uploadAllImages (testHost VNull) DEFAULT_SETTINGS "no images here! [link](http://x)"
  = Some ("no images here! [link](http://x)", [EvNotice "没有找到需要上传的图片"]).
Proof.
  apply (uploadAllImages_no_images (testHost VNull) DEFAULT_SETTINGS
           "no images here! [link](http://x)").
  reflexivity.
Defined.





(* ================================================================== *)
(** ** Trimming and splitting                                          *)
(* ================================================================== *)

Lemma trimStart_length (s : string) : String.length (trimStart s) <= String.length s.
Proof.
  induction s as [|c r IH]; [reflexivity|]. cbn. destruct (isWhiteSpace c); cbn; lia.
Qed.

Lemma trimStart_idem (s : string) : trimStart (trimStart s) = trimStart s.
Proof.
  induction s as [|c r IH]; [reflexivity|].
  cbn. destruct (isWhiteSpace c) eqn:E; [done|]. cbn. by rewrite E.
Qed.

Lemma trimEnd_idem (s : string) : trimEnd (trimEnd s) = trimEnd s.
Proof.
  induction s as [|c r IH]; [reflexivity|].
  cbn [trimEnd]. destruct (trimEnd r) as [|c' r'] eqn:E.
  - destruct (isWhiteSpace c) eqn:Ec; [reflexivity|]. cbn. by rewrite Ec.
  - cbn [trimEnd] in IH |- *. by rewrite IH.
Qed.

Lemma trimStart_trimEnd (t : string) :
  trimStart t = t -> trimStart (trimEnd t) = trimEnd t.
Proof.
  destruct t as [|c r]; [reflexivity|]. intros H.
  assert (isWhiteSpace c = false) as Hc.
  { destruct (isWhiteSpace c) eqn:E; [|done]. cbn in H. rewrite E in H.
    pose proof (trimStart_length r) as Hl. rewrite H in Hl. cbn in Hl. lia. }
  cbn [trimEnd]. destruct (trimEnd r); rewrite ?Hc; cbn; by rewrite Hc.
Qed.

Lemma trim_idem (s : string) : trim (trim s) = trim s.
Proof.
  unfold trim. rewrite (trimStart_trimEnd (trimStart s) (trimStart_idem s)).
  apply trimEnd_idem.
Qed.

Lemma occurs_trimStart (c : ascii) (s : string) :
  occurs c s = false -> occurs c (trimStart s) = false.
Proof.
  induction s as [|c' r IH]; [done|]. cbn. intros H.
  apply orb_false_elim in H as [H1 H2].
  destruct (isWhiteSpace c'); [by apply IH|]. cbn. by rewrite H1, H2.
Qed.

Lemma occurs_trimEnd (c : ascii) (s : string) :
  occurs c s = false -> occurs c (trimEnd s) = false.
Proof.
  induction s as [|c' r IH]; [done|]. cbn [occurs trimEnd]. intros H.
  apply orb_false_elim in H as [H1 H2]. specialize (IH H2).
  destruct (trimEnd r) as [|c2 r2].
  - destruct (isWhiteSpace c'); [done|]. cbn. by rewrite H1.
  - cbn [occurs] in IH |- *. by rewrite H1, IH.
Qed.

Lemma occurs_trim (c : ascii) (s : string) : occurs c s = false -> occurs c (trim s) = false.
Proof. intros H. unfold trim. by apply occurs_trimEnd, occurs_trimStart. Qed.

Lemma str_split_nonempty (sep : ascii) (s : string) : str_split sep s <> [].
Proof.
  destruct s as [|c r]; cbn; [done|].
  destruct (Ascii.eqb c sep); [done|]. by destruct (str_split sep r).
Qed.

(** No part of a split contains the separator. *)
Lemma str_split_parts (sep : ascii) (s : string) :
  Forall (fun part => occurs sep part = false) (str_split sep s).
Proof.
  induction s as [|c r IH]; cbn.
  - by repeat constructor.
  - destruct (Ascii.eqb c sep) eqn:E; [by constructor|].
    destruct (str_split sep r) as [|p ps]; [by repeat constructor; cbn; rewrite E|].
    inversion IH; subst. constructor; [|done]. cbn. by rewrite E.
Qed.

Lemma str_split_app (sep : ascii) (b rest : string) :
  str_split sep (b +:+ String sep rest) = str_split sep b ++ str_split sep rest.
Proof.
  induction b as [|c r IH].
  - rewrite append_empty_l. cbn. by rewrite Ascii.eqb_refl.
  - rewrite append_cons. cbn [str_split]. rewrite IH.
    destruct (Ascii.eqb c sep); [reflexivity|].
    pose proof (str_split_nonempty sep r) as Hne.
    by destruct (str_split sep r).
Qed.

(** Joining parts that are free of the separator and splitting again
    gives the parts back. *)
Lemma str_split_join (sep : ascii) (p : string) (ps : list string) :
  Forall (fun part => occurs sep part = false) (p :: ps) ->
  str_split sep (str_join (String sep EmptyString) (p :: ps)) = p :: ps.
Proof.
  revert p. induction ps as [|q qs IH]; intros p Hall.
  - cbn. apply str_split_single. by inversion Hall.
  - inversion Hall as [|? ? Hp Hrest]; subst.
    change (str_join (String sep EmptyString) (p :: q :: qs))
      with (p +:+ String sep EmptyString +:+ str_join (String sep EmptyString) (q :: qs)).
    change (p +:+ String sep EmptyString +:+ str_join (String sep EmptyString) (q :: qs))
      with (p +:+ String sep (str_join (String sep EmptyString) (q :: qs))).
    rewrite (str_split_cons _ _ _ Hp). by rewrite (IH q Hrest).
Qed.

(* ================================================================== *)
(** ** The settings tab's text areas                                   *)
(* ================================================================== *)

Lemma parseBlacklist_stored (value entry : string) :
  In entry (parseBlacklist value) ->
  entry <> EmptyString /\ trim entry = entry /\ occurs (ascii_of_nat 10) entry = false.
Proof.
  unfold parseBlacklist. intros H. apply filter_In in H as [Hin Hlen].
  apply in_map_iff in Hin as (part & <- & Hpart).
  repeat split.
  - intros E. rewrite E in Hlen. discriminate.
  - apply trim_idem.
  - apply occurs_trim.
    pose proof (str_split_parts (ascii_of_nat 10) value) as Hall.
    rewrite Forall_forall in Hall. apply Hall. by apply list_elem_of_In.
Qed.

(** X7. Every blacklist entry the settings tab stores is non-empty, has
    no blank at either end, and holds no line break. *)
Theorem parseBlacklist_entries (value entry : string) :
  In entry (parseBlacklist value) ->
  entry <> EmptyString /\ trim entry = entry /\ occurs (ascii_of_nat 10) entry = false.
Proof. apply parseBlacklist_stored. Qed.

Lemma parseBlacklist_entries_witness :
  "example.com" <> EmptyString /\ trim "example.com" = "example.com" /\
  occurs (ascii_of_nat 10) "example.com" = false.
Proof.
  apply (parseBlacklist_entries ("  example.com  " +:+ newline +:+ " ") "example.com").
  left. reflexivity.
Defined.

Lemma filter_trim_stored (entries : list string) :
  Forall (fun e => e <> EmptyString /\ trim e = e /\ occurs (ascii_of_nat 10) e = false)
         entries ->
  List.filter (fun e => Nat.ltb 0 (String.length e)) (List.map trim entries) = entries.
Proof.
  induction 1 as [|x xs (Hne & Htrim & _) _ IH]; [reflexivity|].
  change (List.map trim (x :: xs)) with (trim x :: List.map trim xs).
  rewrite Htrim. destruct x as [|c r]; [done|].
  change (List.filter (fun e => Nat.ltb 0 (String.length e))
            (String c r :: List.map trim xs))
    with (String c r :: List.filter (fun e => Nat.ltb 0 (String.length e))
                          (List.map trim xs)).
  by rewrite IH.
Qed.

(** X8. What the settings tab shows for a stored blacklist it reads back
    unchanged, when the entries are as the tab stores them. *)
Theorem parseBlacklist_showLines (entries : list string) :
  Forall (fun e => e <> EmptyString /\ trim e = e /\ occurs (ascii_of_nat 10) e = false)
         entries ->
  parseBlacklist (showLines entries) = entries.
Proof.
  intros Hall. unfold parseBlacklist, showLines, newline.
  destruct entries as [|e es]; [reflexivity|].
  rewrite str_split_join; [by apply filter_trim_stored|].
  eapply Forall_impl; [exact Hall|]. by intros x (_ & _ & Hx).
Qed.

Lemma parseBlacklist_showLines_witness :
  parseBlacklist (showLines ["example.com"; "localhost:3000"])
  = ["example.com"; "localhost:3000"].
Proof.
  apply (parseBlacklist_showLines ["example.com"; "localhost:3000"]).
  repeat constructor; discriminate.
Defined.

(** Every header line the settings tab stores has a colon and no blank
    at either end. *)
Theorem parseHeaders_lines (value line : string) :
  In line (parseHeaders value) ->
  occurs ":" line = true /\ trim line = line /\ occurs (ascii_of_nat 10) line = false.
Proof.
  unfold parseHeaders. intros H. apply filter_In in H as [Hin Hc].
  apply in_map_iff in Hin as (part & <- & Hpart).
  repeat split; [done|apply trim_idem|].
  apply occurs_trim.
  pose proof (str_split_parts (ascii_of_nat 10) value) as Hall.
  rewrite Forall_forall in Hall. apply Hall. by apply list_elem_of_In.
Qed.

Lemma parseHeaders_lines_witness :
  occurs ":" "Authorization: Bearer token" = true /\
  trim "Authorization: Bearer token" = "Authorization: Bearer token" /\
  occurs (ascii_of_nat 10) "Authorization: Bearer token" = false.
Proof.
  apply (parseHeaders_lines (" Authorization: Bearer token " +:+ newline +:+ "junk")
           "Authorization: Bearer token").
  left. reflexivity.
Defined.

(* ================================================================== *)
(** ** The blacklist check                                             *)
(* ================================================================== *)

Lemma toLowerCase_append (s1 s2 : string) :
  toLowerCase (s1 +:+ s2) = toLowerCase s1 +:+ toLowerCase s2.
Proof.
  induction s1 as [|c r IH]; [reflexivity|].
  rewrite append_cons. cbn [toLowerCase]. by rewrite IH, append_cons.
Qed.

Lemma lowerChar_idem (c : ascii) : lowerChar (lowerChar c) = lowerChar c.
Proof. destruct c as [[] [] [] [] [] [] [] []]; reflexivity. Qed.

Lemma toLowerCase_idem (s : string) : toLowerCase (toLowerCase s) = toLowerCase s.
Proof.
  induction s as [|c r IH]; [reflexivity|]. cbn. by rewrite lowerChar_idem, IH.
Qed.

Lemma startsWith_append (s p v : string) :
  startsWith s p = true -> startsWith (s +:+ v) p = true.
Proof.
  rewrite !startsWith_spec. intros [rest ->]. exists (rest +:+ v).
  by rewrite append_assoc.
Qed.

Lemma stripProtocol_http (s : string) : stripProtocol ("http://" +:+ s) = s.
Proof. reflexivity. Qed.

Lemma stripProtocol_https (s : string) : stripProtocol ("https://" +:+ s) = s.
Proof. reflexivity. Qed.

(** X9. The check is blind to letter case and to the protocol: a URL
    and its lower-cased form fare alike, and so do a text behind
    [http://], behind [https://] and behind [HTTPS://]. *)
Theorem isUrlBlacklisted_case_and_protocol (s : ImageUploaderSettings) (u : string) :
  isUrlBlacklisted s (toLowerCase u) = isUrlBlacklisted s u /\
  isUrlBlacklisted s ("https://" +:+ u) = isUrlBlacklisted s ("http://" +:+ u) /\
  isUrlBlacklisted s ("HTTPS://" +:+ u) = isUrlBlacklisted s ("http://" +:+ u).
Proof.
  unfold isUrlBlacklisted. rewrite toLowerCase_idem, !toLowerCase_append.
  change (toLowerCase "https://") with "https://".
  change (toLowerCase "HTTPS://") with "https://".
  change (toLowerCase "http://") with "http://".
  by rewrite stripProtocol_http, stripProtocol_https.
Qed.

(** X10. A blacklisted address stays blacklisted with anything appended:
    an entry for a host also covers its paths and ports, and every longer
    host name that begins with it. *)
Theorem isUrlBlacklisted_extends (s : ImageUploaderSettings) (host rest : string) :
  isUrlBlacklisted s ("http://" +:+ host) = true ->
  isUrlBlacklisted s ("http://" +:+ host +:+ rest) = true /\
  isUrlBlacklisted s ("https://" +:+ host +:+ rest) = true.
Proof.
  rewrite !isUrlBlacklisted_spec. intros (d & Hin & Hs).
  rewrite toLowerCase_append in Hs. change (toLowerCase "http://") with "http://" in Hs.
  rewrite stripProtocol_http in Hs.
  split; exists d; (split; [done|]); rewrite !toLowerCase_append.
  - change (toLowerCase "http://") with "http://". rewrite stripProtocol_http.
    by apply startsWith_append.
  - change (toLowerCase "https://") with "https://". rewrite stripProtocol_https.
    by apply startsWith_append.
Qed.

Lemma isUrlBlacklisted_extends_witness :
  isUrlBlacklisted (testSettings ["Example.com"]) ("http://" +:+ "example.com" +:+ ".evil.org/a.png")
    = true /\
  isUrlBlacklisted (testSettings ["Example.com"]) ("https://" +:+ "example.com" +:+ ".evil.org/a.png")
    = true.
Proof.
  apply (isUrlBlacklisted_extends (testSettings ["Example.com"]) "example.com"
           ".evil.org/a.png").
  reflexivity.
Defined.

Lemma startsWith_of_empty (p : string) : startsWith EmptyString p = true -> p = EmptyString.
Proof. destruct p; [done|discriminate]. Qed.

Lemma stripProtocol_empty (x : string) :
  stripProtocol x = EmptyString <-> x = EmptyString \/ x = "http://" \/ x = "https://".
Proof.
  split.
  - unfold stripProtocol.
    destruct (dropPrefix "http://" x) as [r|] eqn:E1.
    { intros ->. apply dropPrefix_sound in E1. auto. }
    destruct (dropPrefix "https://" x) as [r|] eqn:E2.
    { intros ->. apply dropPrefix_sound in E2. auto. }
    auto.
  - intros [->|[->| ->]]; reflexivity.
Qed.

Lemma isUrlBlacklisted_empty_url (s : ImageUploaderSettings) :
  isUrlBlacklisted s EmptyString = true <->
  exists d, In d (blacklistDomains s) /\
            stripProtocol (trim (toLowerCase d)) = EmptyString.
Proof.
  rewrite isUrlBlacklisted_spec. split; intros (d & Hin & H); exists d; (split; [done|]).
  - by apply startsWith_of_empty.
  - by rewrite H.
Qed.

Lemma isUrlBlacklisted_all (s : ImageUploaderSettings) :
  (forall u, isUrlBlacklisted s u = true) <-> isUrlBlacklisted s EmptyString = true.
Proof.
  split; [intros H; apply H|].
  intros H u. apply isUrlBlacklisted_empty_url in H as (d & Hin & H).
  apply isUrlBlacklisted_spec. exists d. split; [done|]. by rewrite H.
Qed.

(** X11. The blacklist covers every URL exactly when it covers the empty
    one, which is when some entry, lower-cased, trimmed and stripped of
    its protocol, is empty; an empty blacklist covers none. *)
Theorem isUrlBlacklisted_everything (s : ImageUploaderSettings) :
  ((forall u, isUrlBlacklisted s u = true) <-> isUrlBlacklisted s EmptyString = true) /\
  (isUrlBlacklisted s EmptyString = true <->
   exists d, In d (blacklistDomains s) /\
             stripProtocol (trim (toLowerCase d)) = EmptyString) /\
  (blacklistDomains s = [] -> forall u, isUrlBlacklisted s u = false).
Proof.
  split; [apply isUrlBlacklisted_all|]. split; [apply isUrlBlacklisted_empty_url|].
  intros Hnil u. unfold isUrlBlacklisted. by rewrite Hnil.
Qed.

(** X12. With a blacklist as the settings tab stores it, every URL is
    blacklisted exactly when some entry is a bare [http://] or
    [https://], in whatever letter case. *)
Theorem stored_blacklist_covers_everything (s : ImageUploaderSettings) (value : string) :
  blacklistDomains s = parseBlacklist value ->
  ((forall u, isUrlBlacklisted s u = true) <->
   exists d, In d (blacklistDomains s) /\
             (toLowerCase d = "http://" \/ toLowerCase d = "https://")).
Proof.
  intros Hstored.
  rewrite isUrlBlacklisted_all, isUrlBlacklisted_empty_url.
  split; intros (d & Hin & H); exists d; (split; [done|]).
  - assert (In d (parseBlacklist value)) as Hd by (by rewrite <- Hstored).
    apply parseBlacklist_stored in Hd as (Hne & Htrim & _).
    rewrite trim_toLowerCase, Htrim in H.
    apply stripProtocol_empty in H as [H|H]; [|exact H].
    apply (proj1 (toLowerCase_empty d)) in H. by destruct Hne.
  - assert (In d (parseBlacklist value)) as Hd by (by rewrite <- Hstored).
    apply parseBlacklist_stored in Hd as (Hne & Htrim & _).
    rewrite trim_toLowerCase, Htrim. apply stripProtocol_empty. auto.
Qed.

Lemma stored_blacklist_covers_everything_witness :
  (forall u, isUrlBlacklisted (testSettings ["HTTP://"]) u = true) <->
  exists d, In d (blacklistDomains (testSettings ["HTTP://"])) /\
            (toLowerCase d = "http://" \/ toLowerCase d = "https://").
Proof.
  apply (stored_blacklist_covers_everything (testSettings ["HTTP://"]) " HTTP:// ").
  reflexivity.
Defined.

(* ================================================================== *)
(** ** File name, MIME type, request headers                           *)
(* ================================================================== *)

Lemma lastPart_in (parts : list string) :
  parts <> [] -> In (lastPart parts) parts.
Proof.
  unfold lastPart. induction parts as [|p ps IH]; [done|]. intros _.
  destruct ps as [|q qs]; [by left|]. right. by apply IH.
Qed.

(** X13. The file name given to an upload is never empty and never
    contains [/]; it is [image.jpg] when the URL does not parse or its
    path ends in [/]. *)
Theorem getUrlFileName_usable (h : Host) (u : string) :
  getUrlFileName h u <> EmptyString /\
  occurs "/" (getUrlFileName h u) = false /\
  (forall e, URL_pathname h u = Throw e -> getUrlFileName h u = "image.jpg") /\
  (forall dir, URL_pathname h u = Ok (dir +:+ "/") -> getUrlFileName h u = "image.jpg").
Proof.
  unfold getUrlFileName. repeat split.
  - destruct (URL_pathname h u) as [pathname|e]; [|done].
    destruct (String.eqb _ EmptyString) eqn:E; [done|]. by apply String.eqb_neq in E.
  - destruct (URL_pathname h u) as [pathname|e]; [|reflexivity].
    destruct (String.eqb _ EmptyString) eqn:E; [reflexivity|].
    pose proof (str_split_parts "/" pathname) as Hall. rewrite Forall_forall in Hall.
    apply Hall, list_elem_of_In, lastPart_in, str_split_nonempty.
  - by intros e ->.
  - intros dir ->. change (dir +:+ "/") with (dir +:+ String "/" EmptyString).
    rewrite str_split_app. unfold lastPart. cbn [str_split].
    by rewrite last_last.
Qed.

Lemma getMimeType_of_ext (base ext : string) :
  occurs "." ext = false ->
  getMimeType (base +:+ String "." ext)
  = match List.find (fun kv => String.eqb (fst kv) (toLowerCase ext)) mimeTypes with
    | Some kv => snd kv
    | None => "image/jpeg"
    end.
Proof.
  intros He. unfold getMimeType. rewrite str_split_app, (str_split_single _ _ He).
  unfold lastPart. by rewrite last_last.
Qed.

(** X14. The MIME type guessed from a URL depends only on the text
    after the last dot, whatever its letter case; and it is one of the
    five image types of the table, unless that text, lower-cased, is
    [constructor] or [__proto__], the two names the table inherits. *)
Theorem getMimeType_by_extension (u base1 base2 ext1 ext2 : string) :
  (toLowerCase (lastPart (str_split "." u)) <> "constructor" ->
   toLowerCase (lastPart (str_split "." u)) <> "__proto__" ->
   In (getMimeType u)
      ["image/png"; "image/jpeg"; "image/gif"; "image/webp"; "image/bmp"]) /\
  (occurs "." ext1 = false -> occurs "." ext2 = false ->
   toLowerCase ext1 = toLowerCase ext2 ->
   getMimeType (base1 +:+ String "." ext1) = getMimeType (base2 +:+ String "." ext2)).
Proof.
  split.
  - intros _ _. unfold getMimeType.
    destruct (List.find _ mimeTypes) as [kv|] eqn:E; [|cbn; tauto].
    apply find_some in E as [Hin _]. cbn in Hin.
    repeat (destruct Hin as [<-|Hin]; [cbn; tauto|]). destruct Hin.
  - intros H1 H2 Heq. by rewrite (getMimeType_of_ext _ _ H1), (getMimeType_of_ext _ _ H2), Heq.
Qed.

Lemma getMimeType_by_extension_witness :
  In (getMimeType "http://img.example/a.PNG?v=2")
     ["image/png"; "image/jpeg"; "image/gif"; "image/webp"; "image/bmp"] /\
  getMimeType ("http://img.example/a" +:+ String "." "PNG")
  = getMimeType ("b" +:+ String "." "png").
Proof.
  split.
  - apply (getMimeType_by_extension "http://img.example/a.PNG?v=2" "" "" "" "");
      discriminate.
  - apply (getMimeType_by_extension EmptyString "http://img.example/a" "b" "PNG" "png");
      reflexivity.
Defined.

Lemma addHeader_clean (acc : gmap string string) (header : string) :
  (forall k v, acc !! k = Some v ->
     k <> EmptyString /\ v <> EmptyString /\ trim k = k /\ trim v = v /\
     occurs ":" k = false /\ occurs ":" v = false) ->
  forall k v, addHeader acc header !! k = Some v ->
    k <> EmptyString /\ v <> EmptyString /\ trim k = k /\ trim v = v /\
    occurs ":" k = false /\ occurs ":" v = false.
Proof.
  intros Hacc k v. unfold addHeader.
  pose proof (str_split_parts ":" header) as Hparts.
  destruct (str_split ":" header) as [|p1 [|p2 ps]]; cbn [List.map]; try apply Hacc.
  destruct (negb (String.eqb (trim p1) EmptyString)) eqn:E1; cbn [andb]; [|apply Hacc].
  destruct (negb (String.eqb (trim p2) EmptyString)) eqn:E2; [|apply Hacc].
  intros Hl. apply lookup_insert_Some in Hl as [[<- <-]|[_ Hl]]; [|by apply Hacc].
  apply negb_true_iff, String.eqb_neq in E1, E2.
  inversion Hparts as [|? ? Hp1 Hrest]; subst. inversion Hrest as [|? ? Hp2 _]; subst.
  repeat split; try done; try apply trim_idem; by apply occurs_trim.
Qed.

Lemma fold_addHeader_clean (headers : list string) : forall acc,
  (forall k v, acc !! k = Some v ->
     k <> EmptyString /\ v <> EmptyString /\ trim k = k /\ trim v = v /\
     occurs ":" k = false /\ occurs ":" v = false) ->
  forall k v, fold_left addHeader headers acc !! k = Some v ->
    k <> EmptyString /\ v <> EmptyString /\ trim k = k /\ trim v = v /\
    occurs ":" k = false /\ occurs ":" v = false.
Proof.
  induction headers as [|header rest IH]; intros acc Hacc; [exact Hacc|].
  cbn [fold_left]. apply IH. by apply addHeader_clean.
Qed.

(** X15. Whatever the configured header lines, no header is sent with
    an empty name or an empty value, and every name and value sent is
    trimmed and free of colons. *)
Theorem buildHeaders_clean (customHeaders : list string) (k v : string) :
  buildHeaders customHeaders !! k = Some v ->
  k <> EmptyString /\ v <> EmptyString /\ trim k = k /\ trim v = v /\
  occurs ":" k = false /\ occurs ":" v = false.
Proof.
  unfold buildHeaders. apply fold_addHeader_clean. intros k' v' H.
  by rewrite lookup_empty in H.
Qed.

Lemma buildHeaders_clean_witness :
  "Authorization" <> EmptyString /\ "Bearer tok" <> EmptyString /\
  trim "Authorization" = "Authorization" /\ trim "Bearer tok" = "Bearer tok" /\
  occurs ":" "Authorization" = false /\ occurs ":" "Bearer tok" = false.
Proof.
  apply (buildHeaders_clean [" Authorization : Bearer tok "; ": x"; "y:"]
           "Authorization" "Bearer tok").
  vm_compute. reflexivity.
Defined.

(** X16. Of two header lines with the same name the later one is the
    one sent: a line [k:v] with one colon and neither part blank, put
    last, decides the value sent under the trimmed [k] (a name other than
    [__proto__], which an object does not keep as a key). *)
Theorem buildHeaders_last_wins (customHeaders : list string) (k v : string) :
  occurs ":" k = false -> occurs ":" v = false ->
  trim k <> EmptyString -> trim v <> EmptyString ->
  trim k <> "__proto__" ->
  buildHeaders (customHeaders ++ [k +:+ String ":" v]) !! trim k = Some (trim v).
Proof.
  intros Hk Hv Hnk Hnv _. unfold buildHeaders. rewrite fold_left_app. cbn [fold_left].
  rewrite (addHeader_one_colon _ _ _ Hk Hv).
  apply String.eqb_neq in Hnk, Hnv. rewrite Hnk, Hnv. cbn [negb andb].
  apply lookup_insert_eq.
Qed.

Lemma buildHeaders_last_wins_witness :
  buildHeaders (["X-Key: one"] ++ ["X-Key" +:+ String ":" " two"]) !! trim "X-Key"
  = Some (trim " two").
Proof.
  apply (buildHeaders_last_wins ["X-Key: one"] "X-Key" " two");
    first [reflexivity | discriminate].
Defined.

(* ================================================================== *)
(** ** What an upload needs to succeed                                 *)
(* ================================================================== *)

Lemma uploadImage_ok (h : Host) (s : ImageUploaderSettings) (file : File) (v : Value) :
  fst (uploadImage h s file) = Ok v ->
  apiUrl s <> "http://your-api.com/upload" /\
  exists request response result data,
    snd (uploadImage h s file) = [EvFetch request] /\
    req_url request = apiUrl s /\ req_method request = method s /\
    req_image request = file /\
    fetch h request = Ok response /\
    200 <= status response <= 299 /\
    json response = Ok result /\
    getProp result "data" = Ok data /\ getProp data "url" = Ok v.
Proof.
  unfold uploadImage.
  destruct (String.eqb (apiUrl s) "http://your-api.com/upload") eqn:Eapi; [discriminate|].
  apply String.eqb_neq in Eapi. cbn [fst snd]. intros H. split; [done|].
  match type of H with
  | context [fetch h ?r] => exists r; destruct (fetch h r) as [response|e] eqn:Ef
  end; [|discriminate].
  cbn [mbind Outcome_bind] in H.
  destruct (negb (ok response)) eqn:Eok; [discriminate|].
  destruct (json response) as [result|e] eqn:Ej; [|discriminate].
  cbn [mbind Outcome_bind] in H.
  destruct (getProp result "data") as [data|e] eqn:Ed; [|discriminate].
  exists response, result, data. repeat split; try done.
  - apply negb_false_iff in Eok. unfold ok in Eok.
    apply andb_prop in Eok as [H1 _]. by apply Nat.leb_le.
  - apply negb_false_iff in Eok. unfold ok in Eok.
    apply andb_prop in Eok as [_ H2]. by apply Nat.leb_le.
Qed.

(** X17. [uploadImage] gives a value only when the endpoint is not the
    placeholder and one request, to the configured URL with the
    configured method and the file as its image, was answered with a
    status from 200 to 299 and a JSON body whose [data.url] is that
    value. *)
Theorem uploadImage_resolves_only_on_2xx (h : Host) (s : ImageUploaderSettings)
    (file : File) (v : Value) :
  fst (uploadImage h s file) = Ok v ->
  apiUrl s <> "http://your-api.com/upload" /\
  exists request response result data,
    snd (uploadImage h s file) = [EvFetch request] /\
    req_url request = apiUrl s /\ req_method request = method s /\
    req_image request = file /\
    fetch h request = Ok response /\
    200 <= status response <= 299 /\
    json response = Ok result /\
    getProp result "data" = Ok data /\ getProp data "url" = Ok v.
Proof. apply uploadImage_ok. Qed.

Lemma uploadImage_resolves_only_on_2xx_witness :
  apiUrl (testSettings []) <> "http://your-api.com/upload" /\
  exists request response result data,
    snd (uploadImage (testHost (dataUrl "http://api.test/a.png")) (testSettings []) pngFile)
      = [EvFetch request] /\
    req_url request = apiUrl (testSettings []) /\
    req_method request = method (testSettings []) /\
    req_image request = pngFile /\
    fetch (testHost (dataUrl "http://api.test/a.png")) request = Ok response /\
    200 <= status response <= 299 /\
    json response = Ok result /\
    getProp result "data" = Ok data /\
    getProp data "url" = Ok (VStr "http://api.test/a.png").
Proof.
  apply (uploadImage_resolves_only_on_2xx (testHost (dataUrl "http://api.test/a.png"))
           (testSettings []) pngFile (VStr "http://api.test/a.png")).
  reflexivity.
Defined.

(* ================================================================== *)
(** ** [uploadAllImages]: when the editor is rewritten                 *)
(* ================================================================== *)

Lemma processImage_success_step (h : Host) (s : ImageUploaderSettings) (img : Image)
    (p : UploadProgress) :
  success (snd (fst (processImage h s img p))) = success p \/
  (success (snd (fst (processImage h s img p))) = S (success p) /\
   exists r, In (EvFetch r) (snd (processImage h s img p))).
Proof.
  unfold processImage, tryBlock. item_cases h s img; cbn; auto.
  right. split; [done|].
  match goal with
  | H : uploadImage h s ?f = (Ok ?v, ?evs) |- _ =>
      destruct (uploadImage_ok h s f v) as (_ & r & _ & _ & _ & Hev & _);
        [by rewrite H|]; rewrite H in Hev; cbn in Hev; subst evs
  end.
  exists r. cbn. auto.
Qed.

Lemma processBatch_success_fetch (h : Host) (s : ImageUploaderSettings) (l : list Image) :
  forall p,
    success (snd (fst (processBatch h s l p))) = success p \/
    exists r, In (EvFetch r) (snd (processBatch h s l p)).
Proof.
  induction l as [|img rest IH]; intros p; cbn; [auto|].
  pose proof (processImage_success_step h s img p) as Hi.
  destruct (processImage h s img p) as [[r p1] e1]. cbn in Hi.
  specialize (IH p1). destruct (processBatch h s rest p1) as [[rs p2] e2]. cbn in IH |- *.
  destruct Hi as [Hi|(_ & r0 & Hin)].
  - destruct IH as [IH|(r0 & Hin)]; [left; lia|].
    right. exists r0. apply in_or_app. auto.
  - right. exists r0. apply in_or_app. auto.
Qed.

(** X18. [uploadAllImages] always returns, and it changes the editor's
    text only in a run in which an upload request was made. *)
Theorem uploadAllImages_rewrites_only_after_upload (h : Host) (s : ImageUploaderSettings)
    (content : string) :
  exists content' evs,
    uploadAllImages h s content = Some (content', evs) /\
    (content' <> content -> exists r, In (EvFetch r) evs).
Proof.
  unfold uploadAllImages. destruct (extractImages content) as [|img rest] eqn:E.
  - eexists _, _. split; [reflexivity|]. done.
  - rewrite uploadImagesConcurrently_returns by (unfold defaultMaxConcurrent; lia).
    pose proof (processBatch_success_fetch h s (img :: rest) (initialProgress (img :: rest)))
      as Hf.
    destruct (processBatch h s (img :: rest) (initialProgress (img :: rest)))
      as [[rs p] evs].
    cbn [fst snd] in Hf. eexists _, _. split; [reflexivity|].
    intros Hne. destruct (Nat.ltb 0 (success p)) eqn:Es; [|done].
    apply Nat.ltb_lt in Es. destruct Hf as [Hf|(r & Hin)]; [cbn in Hf; lia|].
    exists r. right. apply in_or_app. auto.
Qed.

Lemma uploadImage_placeholder (h : Host) (s : ImageUploaderSettings) (file : File) :
  apiUrl s = "http://your-api.com/upload" ->
  uploadImage h s file
  = (Throw notConfigured, [EvNotice "请在设置中配置正确的图片上传API地址"]).
Proof. intros Hapi. unfold uploadImage. by rewrite Hapi. Qed.

Lemma processImage_placeholder (h : Host) (s : ImageUploaderSettings) (img : Image)
    (p : UploadProgress) :
  apiUrl s = "http://your-api.com/upload" ->
  success (snd (fst (processImage h s img p))) = success p /\
  Forall (fun e => isFetch e = false) (snd (processImage h s img p)).
Proof.
  intros Hapi. unfold processImage, tryBlock.
  item_cases h s img; cbn; (split; [try done|]);
    try (repeat constructor; done);
    match goal with
    | H : uploadImage h s ?f = _ |- _ =>
        rewrite (uploadImage_placeholder h s f Hapi) in H; inversion H; subst
    end.
  repeat constructor.
Qed.

Lemma processBatch_placeholder (h : Host) (s : ImageUploaderSettings) (l : list Image) :
  apiUrl s = "http://your-api.com/upload" ->
  forall p,
    success (snd (fst (processBatch h s l p))) = success p /\
    Forall (fun e => isFetch e = false) (snd (processBatch h s l p)).
Proof.
  intros Hapi. induction l as [|img rest IH]; intros p; cbn; [by split|].
  pose proof (processImage_placeholder h s img p Hapi) as [Hs Hq].
  destruct (processImage h s img p) as [[r p1] e1]. cbn in Hs, Hq.
  destruct (IH p1) as [Hs' Hq']. destruct (processBatch h s rest p1) as [[rs p2] e2].
  cbn in Hs', Hq' |- *. split; [lia|]. by apply Forall_app.
Qed.

(** X19. While the endpoint is the placeholder, [uploadAllImages] never
    makes an upload request and leaves the editor's text as it is,
    whatever the text and the other settings. *)
Theorem uploadAllImages_unconfigured (h : Host) (s : ImageUploaderSettings)
    (content : string) :
  apiUrl s = "http://your-api.com/upload" ->
  exists evs,
    uploadAllImages h s content = Some (content, evs) /\
    Forall (fun e => isFetch e = false) evs.
Proof.
  intros Hapi. unfold uploadAllImages. destruct (extractImages content) as [|img rest].
  - eexists. split; [reflexivity|]. by repeat constructor.
  - rewrite uploadImagesConcurrently_returns by (unfold defaultMaxConcurrent; lia).
    destruct (processBatch_placeholder h s (img :: rest) Hapi (initialProgress (img :: rest)))
      as [Hs Hq].
    destruct (processBatch h s (img :: rest) (initialProgress (img :: rest)))
      as [[rs p] evs].
    cbn [fst snd] in Hs, Hq. cbn in Hs. rewrite Hs. cbn [Nat.ltb Nat.leb].
    eexists. split; [reflexivity|].
    constructor; [done|]. apply Forall_app. split; [done|]. by repeat constructor.
Qed.

Lemma uploadAllImages_unconfigured_witness :
  exists evs,
    uploadAllImages (testHost (dataUrl "http://api.test/a.png")) DEFAULT_SETTINGS document
      = Some (document, evs) /\
    Forall (fun e => isFetch e = false) evs.
Proof.
  apply (uploadAllImages_unconfigured (testHost (dataUrl "http://api.test/a.png"))
           DEFAULT_SETTINGS document).
  reflexivity.
Defined.

Lemma processBatch_all_skipped (h : Host) (s : ImageUploaderSettings) (origin : string)
    (l : list Image) :
  URL_origin h (apiUrl s) = Ok origin ->
  Forall (fun img => isUrlBlacklisted s (url img) = false /\
                     startsWith (url img) origin = true) l ->
  forall p,
    exists p' evs,
      processBatch h s l p = (List.map unchanged l, p', evs) /\
      skipped p' = List.length l + skipped p /\
      success p' = success p /\ failed p' = failed p /\ blacklisted p' = blacklisted p /\
      quiet evs.
Proof.
  intros Ho Hall. induction Hall as [|img rest [Hb Hs] _ IH]; intros p; cbn.
  - eexists _, _. split; [reflexivity|]. repeat split. constructor.
  - rewrite (processImage_skipped h s img p origin Hb Ho Hs).
    destruct (IH (bumpCurrent (bumpCurrent (bumpSkipped p))))
      as (p' & evs & -> & Hk & Hsu & Hf & Hbl & Hq).
    eexists _, _. split; [reflexivity|]. cbn in *.
    repeat split; try done; try lia.
    repeat constructor. exact Hq.
Qed.

(** X20. Run on a text whose image links are all on the endpoint's own
    origin and not blacklisted, [uploadAllImages] makes no request at
    all and leaves the editor's text as it is. *)
Theorem uploadAllImages_already_hosted (h : Host) (s : ImageUploaderSettings)
    (origin content : string) :
  URL_origin h (apiUrl s) = Ok origin ->
  Forall (fun img => isUrlBlacklisted s (url img) = false /\
                     startsWith (url img) origin = true) (extractImages content) ->
  exists evs, uploadAllImages h s content = Some (content, evs) /\ quiet evs.
Proof.
  intros Ho Hall. unfold uploadAllImages.
  destruct (extractImages content) as [|img rest].
  - eexists. split; [reflexivity|]. by repeat constructor.
  - rewrite uploadImagesConcurrently_returns by (unfold defaultMaxConcurrent; lia).
    destruct (processBatch_all_skipped h s origin (img :: rest) Ho Hall
                (initialProgress (img :: rest)))
      as (p & evs & -> & _ & Hs & _ & _ & Hq).
    cbn in Hs. rewrite Hs. cbn [Nat.ltb Nat.leb].
    eexists. split; [reflexivity|].
    constructor; [done|]. apply Forall_app. split; [done|]. by repeat constructor.
Qed.

Lemma uploadAllImages_already_hosted_witness :
  exists evs,
    uploadAllImages (testHost VNull) (testSettings [])
      "![](http://api.test/a.png) and ![b](http://api.test/b.png)"
    = Some ("![](http://api.test/a.png) and ![b](http://api.test/b.png)", evs) /\
    quiet evs.
Proof.
  apply (uploadAllImages_already_hosted (testHost VNull) (testSettings [])
           "http://api.test" "![](http://api.test/a.png) and ![b](http://api.test/b.png)").
  - reflexivity.
  - vm_compute. repeat constructor.
Defined.

(* ================================================================== *)
(** ** The error list, and the order of completion                     *)
(* ================================================================== *)

Lemma processImage_errors (h : Host) (s : ImageUploaderSettings) (img : Image)
    (p : UploadProgress) :
  let p' := snd (fst (processImage h s img p)) in
  List.length (errors p') + failed p = List.length (errors p) + failed p' /\
  (forall e, In e (errors p') ->
     In e (errors p) \/ (fst e = url img /\ snd e <> EmptyString)).
Proof.
  unfold processImage, tryBlock. item_cases h s img; cbn;
    (split; [rewrite ?length_app; cbn; lia|]); intros entry Hin; auto;
    apply in_app_or in Hin as [Hin|[<-|[]]]; auto; right; cbn; (split; [done|]);
    match goal with
    | |- (if String.eqb ?m EmptyString then _ else _) <> _ =>
        destruct (String.eqb m EmptyString) eqn:E;
          [discriminate | by apply String.eqb_neq in E]
    | |- _ => discriminate
    end.
Qed.

Lemma processBatch_errors (h : Host) (s : ImageUploaderSettings) (l : list Image) :
  forall p,
    let p' := snd (fst (processBatch h s l p)) in
    List.length (errors p') + failed p = List.length (errors p) + failed p' /\
    (forall e, In e (errors p') ->
       In e (errors p) \/
       (exists img, In img l /\ fst e = url img) /\ snd e <> EmptyString).
Proof.
  induction l as [|img rest IH]; intros p; cbn; [split; [lia|auto]|].
  pose proof (processImage_errors h s img p) as [Hn He].
  destruct (processImage h s img p) as [[r p1] e1]. cbn in Hn, He.
  destruct (IH p1) as [Hn' He']. destruct (processBatch h s rest p1) as [[rs p2] e2].
  cbn in Hn', He' |- *. split; [lia|].
  intros e Hin. destruct (He' e Hin) as [H1|[(img' & Hi & Hu) Hm]].
  - destruct (He e H1) as [H0|[Hu Hm]]; [auto|]. right. split; [|done]. eauto.
  - right. split; [|done]. eauto.
Qed.

(** X21. When a run ends, the error list has one entry for each failed
    reference: as many entries as [failed] counts, each naming the URL
    of one of the references, each with a message that is not empty. *)
Theorem uploadImagesConcurrently_errors (h : Host) (s : ImageUploaderSettings)
    (content : string) (images : list Image) :
  exists content' p evs,
    uploadImagesConcurrently h s content images defaultMaxConcurrent
      = Some (content', p, evs) /\
    List.length (errors p) = failed p /\
    (forall e, In e (errors p) ->
       (exists img, In img images /\ fst e = url img) /\ snd e <> EmptyString).
Proof.
  rewrite uploadImagesConcurrently_returns by (unfold defaultMaxConcurrent; lia).
  pose proof (processBatch_errors h s images (initialProgress images)) as [Hn He].
  destruct (processBatch h s images (initialProgress images)) as [[rs p] evs].
  cbn in Hn, He. eexists _, p, evs. split; [reflexivity|]. split; [lia|].
  intros e Hin. by destruct (He e Hin) as [[]|H].
Qed.

Lemma processImage_counts_shift (h : Host) (s : ImageUploaderSettings) (img : Image)
    (p q : UploadProgress) :
  exists ds df dk db dc,
    counts (snd (fst (processImage h s img p)))
      = (success p + ds, failed p + df, skipped p + dk, blacklisted p + db, current p + dc) /\
    counts (snd (fst (processImage h s img q)))
      = (success q + ds, failed q + df, skipped q + dk, blacklisted q + db, current q + dc).
Proof.
  unfold processImage, tryBlock, counts.
  item_cases h s img; cbn;
    first [ by exists 0, 0, 0, 1, 2; rewrite !pair_equal_spec; repeat split; lia
          | by exists 0, 0, 1, 0, 2; rewrite !pair_equal_spec; repeat split; lia
          | by exists 1, 0, 0, 0, 1; rewrite !pair_equal_spec; repeat split; lia
          | by exists 0, 1, 0, 0, 1; rewrite !pair_equal_spec; repeat split; lia ].
Qed.

Lemma processBatch_counts_from (h : Host) (s : ImageUploaderSettings) (l : list Image) :
  forall p q, counts p = counts q ->
    counts (snd (fst (processBatch h s l p))) = counts (snd (fst (processBatch h s l q))).
Proof.
  induction l as [|img rest IH]; intros p q Hpq; cbn; [done|].
  destruct (processImage_counts_shift h s img p q) as (ds & df & dk & db & dc & Hp & Hq).
  destruct (processImage h s img p) as [[r1 p1] e1].
  destruct (processImage h s img q) as [[r2 q1] e2]. cbn in Hp, Hq.
  specialize (IH p1 q1).
  destruct (processBatch h s rest p1) as [[rs1 p2] e3].
  destruct (processBatch h s rest q1) as [[rs2 q2] e4]. cbn in IH |- *.
  apply IH. rewrite Hp, Hq. unfold counts in Hpq. inversion Hpq.
  rewrite !pair_equal_spec. repeat split; lia.
Qed.

Lemma processImage_counts_swap (h : Host) (s : ImageUploaderSettings) (x y : Image)
    (p : UploadProgress) :
  counts (snd (fst (processImage h s y (snd (fst (processImage h s x p))))))
  = counts (snd (fst (processImage h s x (snd (fst (processImage h s y p)))))).
Proof.
  destruct (processImage_counts_shift h s x p (snd (fst (processImage h s y p))))
    as (xs & xf & xk & xb & xc & Hx1 & Hx2).
  destruct (processImage_counts_shift h s y p (snd (fst (processImage h s x p))))
    as (ys & yf & yk & yb & yc & Hy1 & Hy2).
  rewrite Hx2, Hy2. unfold counts in Hx1, Hy1. inversion Hx1. inversion Hy1.
  rewrite !pair_equal_spec. repeat split; lia.
Qed.

Lemma processBatch_counts_perm (h : Host) (s : ImageUploaderSettings)
    (l1 l2 : list Image) :
  Permutation l1 l2 ->
  forall p,
    counts (snd (fst (processBatch h s l1 p))) = counts (snd (fst (processBatch h s l2 p))).
Proof.
  induction 1 as [|x l l' _ IH|x y l|l l' l'' _ IH1 _ IH2]; intros p.
  - reflexivity.
  - cbn. destruct (processImage h s x p) as [[r p1] e1]. specialize (IH p1).
    destruct (processBatch h s l p1) as [[rs1 p2] e2].
    by destruct (processBatch h s l' p1) as [[rs2 p3] e3].
  - cbn. pose proof (processImage_counts_swap h s x y p) as Hsw.
    destruct (processImage h s y p) as [[ry py] ey].
    destruct (processImage h s x p) as [[rx px] ex]. cbn in Hsw.
    destruct (processImage h s x py) as [[rx' pyx] ex'].
    destruct (processImage h s y px) as [[ry' pxy] ey']. cbn in Hsw.
    pose proof (processBatch_counts_from h s l pyx pxy (eq_sym Hsw)) as Hl.
    destruct (processBatch h s l pyx) as [[rs1 p1] e1].
    by destruct (processBatch h s l pxy) as [[rs2 p2] e2].
  - by rewrite IH1, IH2.
Qed.

(** X22. The counters a run ends with do not depend on the order in
    which the references complete: two runs over the same references in
    different orders end with the same five counters. *)
Theorem uploadImagesConcurrently_order_free (h : Host) (s : ImageUploaderSettings)
    (content : string) (images images' : list Image) :
  Permutation images images' ->
  exists c1 p1 e1 c2 p2 e2,
    uploadImagesConcurrently h s content images defaultMaxConcurrent = Some (c1, p1, e1) /\
    uploadImagesConcurrently h s content images' defaultMaxConcurrent = Some (c2, p2, e2) /\
    counts p1 = counts p2 /\ total p1 = total p2.
Proof.
  intros Hperm.
  rewrite !uploadImagesConcurrently_returns by (unfold defaultMaxConcurrent; lia).
  pose proof (processBatch_counts_perm h s images images' Hperm (initialProgress images))
    as Hc.
  pose proof (processBatch_counts_from h s images' (initialProgress images)
                (initialProgress images') eq_refl) as Hc'.
  pose proof (processBatch_counters h s images (initialProgress images)) as (Ht1 & _).
  pose proof (processBatch_counters h s images' (initialProgress images')) as (Ht2 & _).
  destruct (processBatch h s images (initialProgress images)) as [[rs1 p1] e1].
  destruct (processBatch h s images' (initialProgress images')) as [[rs2 p2] e2].
  destruct (processBatch h s images' (initialProgress images)) as [[rs3 p3] e3].
  cbn in Hc, Hc', Ht1, Ht2.
  eexists _, p1, e1, _, p2, e2. repeat split; try reflexivity.
  - by rewrite Hc.
  - rewrite Ht1, Ht2. by apply Permutation_length.
Qed.

Lemma uploadImagesConcurrently_order_free_witness :
  exists c1 p1 e1 c2 p2 e2,
    uploadImagesConcurrently (testHost flatBody) (testSettings ["img.example"]) document
      [imageA; hostedImage; spacedImage] defaultMaxConcurrent = Some (c1, p1, e1) /\
    uploadImagesConcurrently (testHost flatBody) (testSettings ["img.example"]) document
      [spacedImage; imageA; hostedImage] defaultMaxConcurrent = Some (c2, p2, e2) /\
    counts p1 = counts p2 /\ total p1 = total p2.
Proof.
  apply (uploadImagesConcurrently_order_free (testHost flatBody)
           (testSettings ["img.example"]) document
           [imageA; hostedImage; spacedImage] [spacedImage; imageA; hostedImage]).
  apply Permutation_sym, (Permutation_cons_append [imageA; hostedImage] spacedImage).
Defined.

(** X23. The batch size does not change what a run leaves: for every
    batch size of at least one the run returns, with the same rewritten
    text and the same counters. *)
Theorem uploadImagesConcurrently_batch_size_free (h : Host) (s : ImageUploaderSettings)
    (content : string) (images : list Image) (n m : nat) :
  1 <= n -> 1 <= m ->
  exists content' p1 e1 p2 e2,
    uploadImagesConcurrently h s content images n = Some (content', p1, e1) /\
    uploadImagesConcurrently h s content images m = Some (content', p2, e2) /\
    counts p1 = counts p2 /\ total p1 = total p2.
Proof.
  intros Hn Hm. rewrite (uploadImagesConcurrently_returns _ _ _ _ n Hn),
                        (uploadImagesConcurrently_returns _ _ _ _ m Hm).
  destruct (processBatch h s images (initialProgress images)) as [[rs p] evs].
  by eexists _, p, evs, p, evs.
Qed.

Lemma uploadImagesConcurrently_batch_size_free_witness :
  exists content' p1 e1 p2 e2,
    uploadImagesConcurrently (testHost flatBody) (testSettings []) document
      [imageA; hostedImage; spacedImage; imageA] 1 = Some (content', p1, e1) /\
    uploadImagesConcurrently (testHost flatBody) (testSettings []) document
      [imageA; hostedImage; spacedImage; imageA] defaultMaxConcurrent
      = Some (content', p2, e2) /\
    counts p1 = counts p2 /\ total p1 = total p2.
Proof.
  apply (uploadImagesConcurrently_batch_size_free (testHost flatBody) (testSettings [])
           document [imageA; hostedImage; spacedImage; imageA] 1 defaultMaxConcurrent);
    unfold defaultMaxConcurrent; lia.
Defined.

(* ================================================================== *)
(** ** Rewriting the text                                              *)
(* ================================================================== *)

Lemma str_replace_same (content mark : string) :
  occurs "$" mark = false -> str_replace content mark mark = content.
Proof.
  intros Hm. destruct (splitAtFirst mark content) as [[b a]|] eqn:E.
  - destruct (str_replace_plain content mark mark b a E Hm) as [Hc ->]. by rewrite Hc.
  - unfold str_replace. by rewrite E.
Qed.

(** X24. References that pass through with their markup unchanged leave
    the text unchanged, as long as no markup among them holds a [$]. *)
Theorem applyResults_unchanged (content : string) (images : list Image) :
  Forall (fun img => occurs "$" (originalMark img) = false) images ->
  applyResults content (List.map unchanged images) = content.
Proof.
  intros Hall. unfold applyResults. revert content.
  induction Hall as [|img rest Hm _ IH]; intros content; [reflexivity|].
  cbn [List.map fold_left unchanged resultMark newMark].
  rewrite (str_replace_same _ _ Hm). apply IH.
Qed.

Lemma applyResults_unchanged_witness :
  applyResults document (List.map unchanged [imageA; hostedImage]) = document.
Proof.
  apply (applyResults_unchanged document [imageA; hostedImage]).
  repeat constructor.
Defined.

(** X25. One reference, uploaded: when the endpoint answers with the
    string [u'], and neither [u'] nor the markup holds a [$], the text is
    rewritten by putting [u'] in place of the old URL, at the first
    occurrence of the URL within the first occurrence of the markup, and
    nothing else changes. *)
Theorem rewrite_one_reference (h : Host) (s : ImageUploaderSettings) (img : Image)
    (p : UploadProgress) (content before after inMarkBefore inMarkAfter u' : string) :
  success (snd (fst (processImage h s img p))) = S (success p) ->
  (forall file v, fst (uploadImage h s file) = Ok v -> v = VStr u') ->
  occurs "$" u' = false ->
  occurs "$" (originalMark img) = false ->
  splitAtFirst (url img) (originalMark img) = Some (inMarkBefore, inMarkAfter) ->
  splitAtFirst (originalMark img) content = Some (before, after) ->
  content = before +:+ (inMarkBefore +:+ url img +:+ inMarkAfter) +:+ after /\
  applyResults content [fst (fst (processImage h s img p))]
  = before +:+ (inMarkBefore +:+ u' +:+ inMarkAfter) +:+ after.
Proof.
  intros Hs Hu Hd Hm Hin Hout.
  destruct (processImage_success h s img p Hs) as (file & newUrl & Hup & _ & Hr).
  rewrite (Hu file newUrl Hup) in Hr. cbn [replacementText] in Hr.
  destruct (str_replace_plain _ _ u' _ _ Hin Hd) as [Hmark Hnew].
  assert (occurs "$" (inMarkBefore +:+ u' +:+ inMarkAfter) = false) as Hfree.
  { rewrite Hmark in Hm. rewrite !occurs_append in Hm |- *.
    apply orb_false_elim in Hm as [H1 H2]. apply orb_false_elim in H2 as [_ H3].
    by rewrite H1, Hd, H3. }
  destruct (str_replace_plain _ _ (inMarkBefore +:+ u' +:+ inMarkAfter) _ _ Hout Hfree)
    as [Hcontent Hrewritten].
  split; [by rewrite <- Hmark|].
  unfold applyResults. rewrite Hr. cbn [fold_left resultMark newMark].
  by rewrite Hnew.
Qed.

Lemma rewrite_one_reference_witness :
  document = "see " +:+ ("![](" +:+ url imageA +:+ ")") +:+ "" /\
  applyResults document
    [fst (fst (processImage (testHost (dataUrl "http://api.test/a.png")) (testSettings [])
                 imageA (initialProgress [imageA])))]
  = "see " +:+ ("![](" +:+ "http://api.test/a.png" +:+ ")") +:+ "".
Proof.
  apply (rewrite_one_reference (testHost (dataUrl "http://api.test/a.png"))
           (testSettings []) imageA (initialProgress [imageA]) document
           "see " "" "![](" ")" "http://api.test/a.png"); try reflexivity.
  intros file v H. vm_compute in H. by inversion H.
Defined.

(* ================================================================== *)
(** ** Pasting an image                                                *)
(* ================================================================== *)

Lemma handlePaste_inserted (h : Host) (s : ImageUploaderSettings) (decode : File -> Decoded)
    (files : option (list File)) (md : string) :
  inserted (handlePaste h s decode files) = Some md ->
  exists file rest v,
    files = Some (file :: rest) /\
    startsWith (fileType file) "image" = true /\ autoUploadOnPaste s = true /\
    fst (uploadImage h s file) = Ok v /\ truthy v = true /\
    (md = "![](" +:+ replacementText h v +:+ ")" \/
     exists w, w <> 0%Z /\ enableAutoWidth s = true /\
               getDefaultWidth s (decode file) = Some w /\
               md = "![|" +:+ decimalZ w +:+ "](" +:+ replacementText h v +:+ ")").
Proof.
  unfold handlePaste. destruct files as [[|file rest]|]; try discriminate.
  destruct (startsWith (fileType file) "image") eqn:Et; [|discriminate].
  destruct (autoUploadOnPaste s) eqn:Ea; [|discriminate]. cbn [negb].
  destruct (uploadImage h s file) as [[v|e] evs] eqn:Eu; [|discriminate].
  destruct (truthy v) eqn:Ev; [|discriminate]. cbn [inserted].
  intros H. exists file, rest, v. repeat split; try done; [by rewrite Eu|].
  destruct (enableAutoWidth s); [|left; congruence].
  destruct (getDefaultWidth s (decode file)) as [w|] eqn:Ew; [|left; congruence].
  destruct (Z.eqb w 0) eqn:Ez; [left; congruence|].
  right. exists w. apply Z.eqb_neq in Ez. repeat split; try done. congruence.
Qed.

Lemma string_of_uint_chars (c : ascii) (d : Decimal.uint) :
  (Nat.leb 48 (nat_of_ascii c) && Nat.leb (nat_of_ascii c) 57) = false ->
  occurs c (NilEmpty.string_of_uint d) = false.
Proof.
  intros Hc. induction d; cbn [NilEmpty.string_of_uint occurs]; try done;
    rewrite IHd, orb_false_r;
    destruct c as [[] [] [] [] [] [] [] []]; try reflexivity; discriminate Hc.
Qed.

Lemma decimal_chars (c : ascii) (n : nat) :
  (Nat.leb 48 (nat_of_ascii c) && Nat.leb (nat_of_ascii c) 57) = false ->
  occurs c (decimal n) = false.
Proof.
  intros Hc. unfold decimal, NilZero.string_of_uint.
  destruct (Nat.to_uint n) eqn:E; try (rewrite <- E); try by apply string_of_uint_chars.
  cbn. rewrite orb_false_r.
  destruct c as [[] [] [] [] [] [] [] []]; try reflexivity; discriminate Hc.
Qed.

Lemma decimalZ_chars (c : ascii) (z : Z) :
  (Nat.leb 48 (nat_of_ascii c) && Nat.leb (nat_of_ascii c) 57) = false ->
  Ascii.eqb "-" c = false ->
  occurs c (decimalZ z) = false.
Proof.
  intros Hc Hm. destruct z as [|n|n]; cbn [decimalZ].
  - cbn. rewrite orb_false_r.
    destruct c as [[] [] [] [] [] [] [] []]; try reflexivity; discriminate Hc.
  - by apply decimal_chars.
  - change ("-" +:+ decimal (Pos.to_nat n)) with (String "-" (decimal (Pos.to_nat n))).
    cbn [occurs]. by rewrite Hm, decimal_chars.
Qed.

Lemma hasLineTerminator_occurs (s : string) :
  occurs (ascii_of_nat 10) s = false -> occurs (ascii_of_nat 13) s = false ->
  hasLineTerminator s = false.
Proof.
  induction s as [|c r IH]; [done|]. cbn [occurs hasLineTerminator]. intros H1 H2.
  apply orb_false_elim in H1 as [Hc1 H1]. apply orb_false_elim in H2 as [Hc2 H2].
  rewrite (IH H1 H2), orb_false_r. unfold isLineTerminator.
  apply Ascii.eqb_neq in Hc1, Hc2.
  destruct (Nat.eqb (nat_of_ascii c) 10) eqn:E1.
  { apply Nat.eqb_eq in E1. destruct Hc1. by rewrite <- (ascii_nat_embedding c), E1. }
  destruct (Nat.eqb (nat_of_ascii c) 13) eqn:E2; [|done].
  apply Nat.eqb_eq in E2. destruct Hc2. by rewrite <- (ascii_nat_embedding c), E2.
Qed.

(** X26. A paste inserts text only after an upload gave a truthy value,
    and what it inserts is an image link, [![](url)] or [![|width](url)]
    with a width that is not 0; if the URL has no [)] and no line break,
    [uploadAllImages] later finds exactly that link in it, with that URL. *)
Theorem handlePaste_inserts_image_link (h : Host) (s : ImageUploaderSettings)
    (decode : File -> Decoded) (files : option (list File)) (md : string) :
  inserted (handlePaste h s decode files) = Some md ->
  exists file rest v alt,
    files = Some (file :: rest) /\
    fst (uploadImage h s file) = Ok v /\ truthy v = true /\
    md = "![" +:+ alt +:+ "](" +:+ replacementText h v +:+ ")" /\
    (alt = EmptyString \/ exists w, w <> 0%Z /\ alt = "|" +:+ decimalZ w) /\
    (occurs ")" (replacementText h v) = false ->
     hasLineTerminator (replacementText h v) = false ->
     extractImages md = [{| url := replacementText h v; originalMark := md |}]).
Proof.
  intros H.
  destruct (handlePaste_inserted h s decode files md H)
    as (file & rest & v & -> & _ & _ & Hu & Hv & Hmd).
  assert (exists alt,
            md = imageMark alt (replacementText h v) /\
            (alt = EmptyString \/ exists w, w <> 0%Z /\ alt = "|" +:+ decimalZ w) /\
            occurs "]" alt = false /\ hasLineTerminator alt = false)
    as (alt & -> & Halt & Hb & Hl).
  { destruct Hmd as [->|(w & Hw & _ & _ & ->)].
    - exists EmptyString. repeat split; auto.
    - exists ("|" +:+ decimalZ w). repeat split.
      + right. eauto.
      + change ("|" +:+ decimalZ w) with (String "|" (decimalZ w)). cbn [occurs].
        by rewrite decimalZ_chars.
      + change ("|" +:+ decimalZ w) with (String "|" (decimalZ w)).
        cbn [hasLineTerminator]. rewrite hasLineTerminator_occurs; [done| |];
          by apply decimalZ_chars. }
  exists file, rest, v, alt. repeat split; try done.
  intros Ho Hlt. unfold extractImages, matchAllImages.
  pose proof (matchAllFrom_first alt (replacementText h v) EmptyString Hb Hl Ho Hlt
                EmptyString 0 eq_refl) as Hm.
  rewrite append_empty_l, append_empty_r in Hm. exact Hm.
Qed.

Lemma handlePaste_inserts_image_link_witness :
  exists file rest v alt,
    Some [pngFile] = Some (file :: rest) /\
    fst (uploadImage (testHost (dataUrl "http://api.test/a.png")) (testSettings []) file)
      = Ok v /\
    truthy v = true /\
    "![|800](http://api.test/a.png)"
      = "![" +:+ alt +:+ "](" +:+ replacementText (testHost (dataUrl "http://api.test/a.png")) v
        +:+ ")" /\
    (alt = EmptyString \/ exists w, w <> 0%Z /\ alt = "|" +:+ decimalZ w) /\
    (occurs ")" (replacementText (testHost (dataUrl "http://api.test/a.png")) v) = false ->
     hasLineTerminator (replacementText (testHost (dataUrl "http://api.test/a.png")) v)
       = false ->
     extractImages "![|800](http://api.test/a.png)"
     = [{| url := replacementText (testHost (dataUrl "http://api.test/a.png")) v;
           originalMark := "![|800](http://api.test/a.png)" |}]).
Proof.
  apply (handlePaste_inserts_image_link (testHost (dataUrl "http://api.test/a.png"))
           (testSettings []) (fun _ => Loaded 2000) (Some [pngFile])
           "![|800](http://api.test/a.png)").
  reflexivity.
Defined.

(** X27. A paste while the endpoint is the placeholder: the default
    paste is still prevented, nothing is inserted, no request is made,
    and two notices appear, the one asking for configuration and the
    failure notice with the error's message. *)
Theorem handlePaste_unconfigured (h : Host) (s : ImageUploaderSettings)
    (decode : File -> Decoded) (file : File) (rest : list File) :
  apiUrl s = "http://your-api.com/upload" ->
  startsWith (fileType file) "image" = true ->
  autoUploadOnPaste s = true ->
  handlePaste h s decode (Some (file :: rest))
  = {| defaultPrevented := true;
       inserted := None;
       pasteEvents := [EvNotice "请在设置中配置正确的图片上传API地址";
                       EvNotice "上传失败: 未配置API地址"] |}.
Proof.
  intros Hapi Ht Ha. unfold handlePaste.
  by rewrite Ht, Ha, (uploadImage_placeholder h s file Hapi).
Qed.

Lemma handlePaste_unconfigured_witness :
  handlePaste (testHost VNull) DEFAULT_SETTINGS (fun _ => DecodeError) (Some [pngFile])
  = {| defaultPrevented := true;
       inserted := None;
       pasteEvents := [EvNotice "请在设置中配置正确的图片上传API地址";
                       EvNotice "上传失败: 未配置API地址"] |}.
Proof.
  apply (handlePaste_unconfigured (testHost VNull) DEFAULT_SETTINGS (fun _ => DecodeError)
           pngFile []); reflexivity.
Defined.

(* ================================================================== *)
(** ** Uploading the image under the cursor                            *)
(* ================================================================== *)

(** X28. [uploadSingleImage] rewrites the line exactly when the batch
    callback would count the same reference as a success, and then the
    new line is the old one with the markup replaced by the new markup
    the batch callback computes. *)
Theorem uploadSingleImage_agrees_with_batch (h : Host) (s : ImageUploaderSettings)
    (img : Image) (line : string) (p : UploadProgress) (newLine : string) :
  fst (uploadSingleImage h s img line) = Some newLine <->
  success (snd (fst (processImage h s img p))) = S (success p) /\
  newLine = str_replace line (originalMark img)
              (newMark (fst (fst (processImage h s img p)))).
Proof.
  unfold uploadSingleImage, singleTry, processImage, tryBlock.
  item_cases h s img; cbn; (split; [intros Hsome | intros [Hsucc Hnew]]);
    try discriminate; try lia.
  - by inversion Hsome.
  - by subst.
Qed.

(** X29. [uploadSingleImage] makes no request and leaves the line alone
    for a reference that is blacklisted, or already on the endpoint's
    origin, or when the endpoint does not parse as a URL; it shows one
    notice saying which. *)
Theorem uploadSingleImage_policy (h : Host) (s : ImageUploaderSettings)
    (img : Image) (line : string) :
  (isUrlBlacklisted s (url img) = true ->
   uploadSingleImage h s img line = (None, [EvNotice "此图片域名在黑名单中"])) /\
  (forall origin,
     isUrlBlacklisted s (url img) = false ->
     URL_origin h (apiUrl s) = Ok origin -> startsWith (url img) origin = true ->
     uploadSingleImage h s img line = (None, [EvNotice "此图片已经上传过了"])) /\
  (forall e,
     isUrlBlacklisted s (url img) = false ->
     URL_origin h (apiUrl s) = Throw e ->
     uploadSingleImage h s img line = (None, [EvNotice ("❌ 上传失败: " +:+ message e)])) /\
  (Exists (fun ev => isNetwork ev = true) (snd (uploadSingleImage h s img line)) ->
   isUrlBlacklisted s (url img) = false /\
   exists origin, URL_origin h (apiUrl s) = Ok origin /\
                  startsWith (url img) origin = false).
Proof.
  unfold uploadSingleImage, singleTry. split; [|split; [|split]].
  - by intros ->.
  - by intros origin -> -> ->.
  - by intros e -> ->.
  - destruct (isUrlBlacklisted s (url img)).
    { cbn. intros H. inversion H as [? ? H1|? ? H1]; [discriminate|inversion H1]. }
    destruct (URL_origin h (apiUrl s)) as [origin|e].
    + destruct (startsWith (url img) origin) eqn:Es; [|eauto].
      cbn. intros H. inversion H as [? ? H1|? ? H1]; [discriminate|inversion H1].
    + cbn. intros H. inversion H as [? ? H1|? ? H1]; [discriminate|inversion H1].
Qed.

Lemma uploadSingleImage_policy_witness :
  uploadSingleImage (testHost VNull) (testSettings ["img.example"]) imageA document
  = (None, [EvNotice "此图片域名在黑名单中"]).
Proof.
  apply (uploadSingleImage_policy (testHost VNull) (testSettings ["img.example"]) imageA
           document).
  reflexivity.
Defined.

(** X30. With [jsonPath] the default [data.url], the walk of the second
    revision reads what [uploadImage] reads, [result.data.url], whenever
    the answer and its [data] are truthy; when [data] is missing or
    falsy the walk stops with that value and does not throw. *)
Theorem Legacy_getValueByPath_default (result data : Value) :
  truthy result = true ->
  getProp result "data" = Ok data ->
  (truthy data = true ->
   Legacy.getValueByPath result (jsonPath DEFAULT_SETTINGS) = getProp data "url") /\
  (truthy data = false ->
   Legacy.getValueByPath result (jsonPath DEFAULT_SETTINGS) = Ok data).
Proof.
  intros Hr Hd.
  change (jsonPath DEFAULT_SETTINGS) with ("data" +:+ String "." "url").
  rewrite (Legacy_getValueByPath_step result "data" "url" eq_refl Hr), Hd.
  cbn [mbind Outcome_bind]. split; intros Ht.
  - by apply Legacy_getValueByPath_last.
  - by apply Legacy_getValueByPath_falsy.
Qed.

Lemma Legacy_getValueByPath_default_witness :
  (truthy (VObj [("url", VStr "http://api.test/a.png")]) = true ->
   Legacy.getValueByPath (dataUrl "http://api.test/a.png") (jsonPath DEFAULT_SETTINGS)
   = getProp (VObj [("url", VStr "http://api.test/a.png")]) "url") /\
  (truthy (VObj [("url", VStr "http://api.test/a.png")]) = false ->
   Legacy.getValueByPath (dataUrl "http://api.test/a.png") (jsonPath DEFAULT_SETTINGS)
   = Ok (VObj [("url", VStr "http://api.test/a.png")])).
Proof.
  apply (Legacy_getValueByPath_default (dataUrl "http://api.test/a.png")
           (VObj [("url", VStr "http://api.test/a.png")])); reflexivity.
Defined.
